(** * slog-env: a [log/slog] handler filtered by the GO_LOG environment variable

    Shallow embedding of [handler.go] (package [slogenv]) and verification of
    its filter parser, level resolution and handler methods.

    Conventions of the embedding:
    - a Go [string] is a sequence of bytes: Rocq's [string];
    - [slog.Level] is Go's [int] (64 bits on the platforms considered): a [Z]
      with the wrap-around of [+=] written out;
    - [map[string]slog.Level] is a [gmap string Z]; a map value in Go is a
      reference, so handlers hold a location into a store of maps;
    - [*Handler] is a location into a store of [Handler] structs;
    - methods run in a state-and-failure monad over those stores, the process
      environment and the state of the wrapped sink; failure is a Go panic. *)

From Stdlib Require Import ZArith Ascii String List Lia Bool.
From stdpp Require Import base option gmap strings list fin_maps.

Local Open Scope string_scope.
Local Open Scope Z_scope.

(** ** Package [strings] (the functions the handler calls)

    Every call site passes a one-byte separator, so the separator is a byte. *)

(** [strings.Split(s, sep)]: the pieces of [s] between the occurrences of
    [sep]; always at least one piece. *)
Fixpoint Split (s : string) (sep : ascii) : list string :=
  match s with
  | EmptyString => [EmptyString]
  | String c s' =>
      if Ascii.eqb c sep then EmptyString :: Split s' sep
      else match Split s' sep with
           | [] => [String c EmptyString]
           | w :: ws => String c w :: ws
           end
  end.

(** [strings.Cut(s, sep)]: [s] around its first [sep]; [(s, "", false)] when
    [sep] does not occur. *)
Fixpoint Cut (s : string) (sep : ascii) : string * string * bool :=
  match s with
  | EmptyString => (EmptyString, EmptyString, false)
  | String c s' =>
      if Ascii.eqb c sep then (EmptyString, s', true)
      else let '(before, after, found) := Cut s' sep in
           (String c before, after, found)
  end.

(** Upper-casing of one ASCII byte. *)
Definition upperByte (c : ascii) : ascii :=
  let n := N_of_ascii c in
  if ((97 <=? n) && (n <=? 122))%N then ascii_of_N (n - 32) else c.

(** [strings.ToUpper(s)], as far as its comparison with an ASCII word goes:
    ASCII letters are upper-cased; the two non-ASCII runes whose upper case is
    an ASCII letter, U+0131 (bytes C4 B1, upper case [I]) and U+017F (bytes
    C5 BF, upper case [S]) are mapped; every other byte of a non-ASCII rune
    stays non-ASCII here as it does in Go. *)
Fixpoint ToUpper (s : string) : string :=
  match s with
  | EmptyString => EmptyString
  | String c s' =>
      match s' with
      | String d s'' =>
          if (Ascii.eqb c "196" && Ascii.eqb d "177")%bool then String "I" (ToUpper s'')
          else if (Ascii.eqb c "197" && Ascii.eqb d "191")%bool then String "S" (ToUpper s'')
          else String (upperByte c) (ToUpper s')
      | EmptyString => String (upperByte c) EmptyString
      end
  end.

(** ** Package [strconv] *)

Definition isDigit (c : ascii) : bool :=
  let n := N_of_ascii c in ((48 <=? n) && (n <=? 57))%N.

Fixpoint decimal (s : string) (acc : Z) : option Z :=
  match s with
  | EmptyString => Some acc
  | String c s' =>
      if isDigit c then decimal s' (acc * 10 + (Z.of_N (N_of_ascii c) - 48))
      else None
  end.

Definition minInt : Z := - 2 ^ 63.
Definition maxInt : Z := 2 ^ 63 - 1.

(** [strconv.Atoi(s)]: an optional sign and one or more decimal digits whose
    value fits an [int]; [None] stands for the syntax and range errors. *)
Definition Atoi (s : string) : option Z :=
  let '(neg, body) :=
    match s with
    | String "-" r => (true, r)
    | String "+" r => (false, r)
    | _ => (false, s)
    end in
  match body with
  | EmptyString => None
  | _ =>
      match decimal body 0 with
      | Some n =>
          let v := if neg then - n else n in
          if (minInt <=? v) && (v <=? maxInt) then Some v else None
      | None => None
      end
  end.

(** ** The monad of the embedding

    A computation takes the state and either panics ([None]) or returns a
    value and the new state. *)

Definition M (St A : Type) : Type := St -> option (A * St).

#[global] Instance M_ret St : MRet (M St) :=
  λ A a σ, Some (a, σ).

#[global] Instance M_bind St : MBind (M St) :=
  λ A B f m σ, match m σ with Some (a, σ') => f a σ' | None => None end.

(** ** Package [log/slog] *)

Module slog.

Definition Level : Type := Z.

Definition LevelDebug : Level := -4.
Definition LevelInfo : Level := 0.
Definition LevelWarn : Level := 4.
Definition LevelError : Level := 8.

(** The zero value of the type, what a missing map entry reads as. *)
Definition zeroLevel : Level := 0.

(** Addition on Go's [int]. *)
Definition wrapInt (z : Z) : Z := (z + 2 ^ 63) mod 2 ^ 64 - 2 ^ 63.

Inductive LevelError_ : Type :=
| ErrOffset
| ErrUnknownName.

(** [s[:i]] and [s[i:]] for [i := strings.IndexAny(s, "+-")]; no offset part
    when neither sign occurs. *)
Fixpoint splitOffset (s : string) : string * option string :=
  match s with
  | EmptyString => (EmptyString, None)
  | String c s' =>
      if (Ascii.eqb c "+" || Ascii.eqb c "-")%bool then (EmptyString, Some s)
      else let '(name, off) := splitOffset s' in (String c name, off)
  end.

Definition levelOfName (name : string) : option Level :=
  let up := ToUpper name in
  if String.eqb up "DEBUG" then Some LevelDebug
  else if String.eqb up "INFO" then Some LevelInfo
  else if String.eqb up "WARN" then Some LevelWarn
  else if String.eqb up "ERROR" then Some LevelError
  else None.

(** [Level.parse]: the receiver is written only on success. *)
Definition parse (l : Level) (s : string) : Level * option LevelError_ :=
  let '(name, off) := splitOffset s in
  match (match off with
         | None => Some 0
         | Some o => Atoi o
         end) with
  | None => (l, Some ErrOffset)
  | Some offset =>
      match levelOfName name with
      | None => (l, Some ErrUnknownName)
      | Some base => (wrapInt (base + offset), None)
      end
  end.

(** [Level.UnmarshalText]: the updated receiver and the error. *)
Definition UnmarshalText (l : Level) (data : string) : Level * option LevelError_ :=
  parse l data.

Record Attr : Type := mkAttr { Key : string; Value : string }.

(** [slog.Record]: the fields the handler reads, and the message the sinks
    of the tests record. [PC] is the program counter of the log call. *)
Record Record : Type := mkRecord {
  Record_Time : Z;
  Record_Message : string;
  Record_Level : Level;
  Record_PC : N
}.

(** The interface [slog.Handler], for handler values of type [H] whose
    methods act on a state [St]. [error] and [context] are Go's [error] and
    [context.Context]; a [nil] error is [None]. *)
Class Handler (error context St H : Type) : Type := {
  Enabled : H -> context -> Level -> M St bool;
  Handle : H -> context -> Record -> M St (option error);
  WithAttrs : H -> list Attr -> M St H;
  WithGroup : H -> string -> M St H
}.

End slog.

(** ** [parsePackage] and [parseFilter] *)

Definition lastPart (parts : list string) : string := List.last parts EmptyString.

(** [parsePackage]: the package out of a formatted function name. *)
Definition parsePackage (function : string) : string * bool :=
  let parts := Split function "/" in
  let '(pkg, _, ok) := Cut (lastPart parts) "." in
  (pkg, ok).

(** [m[k]] on a Go map: the zero value when the key is absent. *)
Definition mapIndex (m : gmap string slog.Level) (k : string) : slog.Level :=
  default slog.zeroLevel (m !! k).

(** The body of the loop of [parseFilter], on the loop's two variables. The
    error of [UnmarshalText] is dropped, as in the source. *)
Definition parseFilterTerm (st : slog.Level * gmap string slog.Level) (filter : string)
  : slog.Level * gmap string slog.Level :=
  let '(defaultLevel, perPackageLevel) := st in
  let '(first, second, ok) := Cut filter "=" in
  if negb ok then
    (fst (slog.UnmarshalText defaultLevel first), perPackageLevel)
  else
    let packageLevel := mapIndex perPackageLevel first in
    let packageLevel := fst (slog.UnmarshalText packageLevel second) in
    (defaultLevel, <[first := packageLevel]> perPackageLevel).

(** [parseFilter]: the filter of the environment variable. *)
Definition parseFilter (defaultLevel : slog.Level) (filter : string)
  : slog.Level * gmap string slog.Level :=
  fold_left parseFilterTerm (Split filter ",") (defaultLevel, ∅).

(** ** Package [slogenv]: configuration *)

Record config : Type := mkConfig {
  config_defaultLevel : slog.Level;
  config_envVarName : string;
  config_defaultFilter : string
}.

(** [Opt]: a function that updates the configuration it is handed. The
    options are the functions the three constructors below build; a [nil]
    option, on which [NewHandler] panics when it calls it, is not among them. *)
Definition Opt : Type := config -> config.

Definition WithDefaultLevel (level : slog.Level) : Opt :=
  fun cfg => {| config_defaultLevel := level;
                config_envVarName := config_envVarName cfg;
                config_defaultFilter := config_defaultFilter cfg |}.

Definition WithEnvVarName (name : string) : Opt :=
  fun cfg => {| config_defaultLevel := config_defaultLevel cfg;
                config_envVarName := name;
                config_defaultFilter := config_defaultFilter cfg |}.

Definition WithDefaultFilter (filter : string) : Opt :=
  fun cfg => {| config_defaultLevel := config_defaultLevel cfg;
                config_envVarName := config_envVarName cfg;
                config_defaultFilter := filter |}.

(** The configuration [NewHandler] starts from. *)
Definition initialConfig : config :=
  {| config_envVarName := "GO_LOG";
     config_defaultLevel := slog.LevelInfo;
     config_defaultFilter := "" |}.

(** [for _, opt := range opts { opt(&cfg) }] *)
Definition applyOpts (opts : list Opt) (cfg : config) : config :=
  fold_left (fun cfg opt => opt cfg) opts cfg.

(** ** Package [slogenv]: the handler *)

Definition loc : Type := positive.

Section Slogenv.

(** Go's [error] and [context.Context]; the wrapped handler values and the
    state their methods act on. The wrapped handler cannot reach the
    unexported fields of a [Handler]: its methods act on [Sink] alone. *)
Context {error context Sink Inner : Type}.
Context `{!slog.Handler error context Sink Inner}.

(** [runtime.CallersFrames([]uintptr{pc}).Next()], field [Function]: the name of
    the function the program counter lies in, empty when unknown. *)
Variable frameFunction : N -> string.

Record Handler : Type := mkHandler {
  inner : Inner;
  defaultLevel : slog.Level;
  perPackageLevel : loc
}.

Record state : Type := mkState {
  handlers : gmap loc Handler;
  maps : gmap loc (gmap string slog.Level);
  environ : gmap string string;
  sink : Sink
}.

Definition setHandlers (hs : gmap loc Handler) (σ : state) : state :=
  {| handlers := hs; maps := maps σ; environ := environ σ; sink := sink σ |}.

Definition setMaps (ms : gmap loc (gmap string slog.Level)) (σ : state) : state :=
  {| handlers := handlers σ; maps := ms; environ := environ σ; sink := sink σ |}.

Definition setSink (s : Sink) (σ : state) : state :=
  {| handlers := handlers σ; maps := maps σ; environ := environ σ; sink := s |}.

Definition setEnviron (env : gmap string string) (σ : state) : state :=
  {| handlers := handlers σ; maps := maps σ; environ := env; sink := sink σ |}.

(** A method of the wrapped handler, run on its part of the state. *)
Definition liftSink {A : Type} (m : M Sink A) : M state A :=
  fun σ => match m (sink σ) with
           | Some (a, s) => Some (a, setSink s σ)
           | None => None
           end.

(** Reading through a [*Handler]; a pointer to nothing panics. *)
Definition loadHandler (h : loc) : M state Handler :=
  fun σ => match handlers σ !! h with
           | Some hv => Some (hv, σ)
           | None => None
           end.

(** [&Handler{...}]: a new struct. *)
Definition newHandler (hv : Handler) : M state loc :=
  fun σ => let h := fresh (dom (handlers σ)) in
           Some (h, setHandlers (<[h := hv]> (handlers σ)) σ).

(** The map a reference stands for; a reference to nothing is the [nil] map,
    which reads as the empty map. *)
Definition readMap (σ : state) (m : loc) : gmap string slog.Level :=
  default ∅ (maps σ !! m).

(** The map references the handlers hold. *)
Definition mapRefs (σ : state) : gset loc :=
  map_img (perPackageLevel <$> handlers σ).

(** The map [parseFilter] made, as a reference: one that stands for no map
    yet and that no handler holds, the [nil] references among them. *)
Definition newMap (content : gmap string slog.Level) : M state loc :=
  fun σ => let m := fresh (dom (maps σ) ∪ mapRefs σ) in
           Some (m, setMaps (<[m := content]> (maps σ)) σ).

(** [len(m)] *)
Definition mapLen (m : loc) : M state nat :=
  fun σ => Some (size (readMap σ m), σ).

(** [v, ok := m[k]] *)
Definition mapLookup (m : loc) (k : string) : M state (slog.Level * bool) :=
  fun σ => match readMap σ m !! k with
           | Some v => Some ((v, true), σ)
           | None => Some ((slog.zeroLevel, false), σ)
           end.

(** [os.Getenv]: the empty string when the variable is not set. *)
Definition Getenv (name : string) : M state string :=
  fun σ => Some (default "" (environ σ !! name), σ).

(** [NewHandler] creates a new env logger handler. *)
Definition NewHandler (inner : Inner) (opts : list Opt) : M state loc :=
  let cfg := applyOpts opts initialConfig in
  envFilter ← Getenv (config_envVarName cfg);
  let filter := if negb (String.eqb envFilter "") then envFilter
                else config_defaultFilter cfg in
  let '(defaultLevel, perPackageLevel) := parseFilter (config_defaultLevel cfg) filter in
  perPackageLevel ← newMap perPackageLevel;
  newHandler {| defaultLevel := defaultLevel;
                perPackageLevel := perPackageLevel;
                inner := inner |}.

(** [Handler.Enabled] *)
Definition Handler_Enabled (h : loc) (ctx : context) (level : slog.Level) : M state bool :=
  hv ← loadHandler h;
  n ← mapLen (perPackageLevel hv);
  if Nat.eqb n 0 then mret (level >=? defaultLevel hv)
  else mret true.

(** [Handler.getLevelForRecord] *)
Definition getLevelForRecord (h : loc) (record : slog.Record) : M state slog.Level :=
  hv ← loadHandler h;
  n ← mapLen (perPackageLevel hv);
  if Nat.eqb n 0 then mret (defaultLevel hv)
  else
    let function := frameFunction (slog.Record_PC record) in
    let '(pkg, ok) := parsePackage function in
    if negb ok then mret (defaultLevel hv)
    else
      '(level, ok) ← mapLookup (perPackageLevel hv) pkg;
      if negb ok then mret (defaultLevel hv)
      else mret level.

(** [Handler.Handle] *)
Definition Handler_Handle (h : loc) (ctx : context) (record : slog.Record)
  : M state (option error) :=
  level ← getLevelForRecord h record;
  if slog.Record_Level record <? level then mret None
  else
    hv ← loadHandler h;
    liftSink (slog.Handle (inner hv) ctx record).

(** [Handler.WithAttrs] *)
Definition Handler_WithAttrs (h : loc) (attrs : list slog.Attr) : M state loc :=
  hv ← loadHandler h;
  inner' ← liftSink (slog.WithAttrs (inner hv) attrs);
  newHandler {| inner := inner';
                defaultLevel := defaultLevel hv;
                perPackageLevel := perPackageLevel hv |}.

(** [Handler.WithGroup] *)
Definition Handler_WithGroup (h : loc) (name : string) : M state loc :=
  hv ← loadHandler h;
  inner' ← liftSink (slog.WithGroup (inner hv) name);
  newHandler {| inner := inner';
                defaultLevel := defaultLevel hv;
                perPackageLevel := perPackageLevel hv |}.

(** A [*Handler] implements [slog.Handler]. *)
Definition Handler_slogHandler : slog.Handler error context state loc := {|
  slog.Enabled := Handler_Enabled;
  slog.Handle := Handler_Handle;
  slog.WithAttrs := Handler_WithAttrs;
  slog.WithGroup := Handler_WithGroup
|}.

End Slogenv.

(** ** The sink of the tests

    [testHandler] records the messages it is handed; [WithAttrs] and
    [WithGroup] return the receiver. A [*testHandler] is a location into a
    store of message lists. *)

Definition testSink : Type := gmap loc (list string).

Definition testHandler_Handle (h : loc) (ctx : unit) (record : slog.Record)
  : M testSink (option string) :=
  fun s => match s !! h with
           | Some messages =>
               Some (None, <[h := (messages ++ [slog.Record_Message record])%list]> s)
           | None => None
           end.

#[global] Instance testHandler : slog.Handler string unit testSink loc := {
  slog.Enabled := fun _ _ _ => mret true;
  slog.Handle := testHandler_Handle;
  slog.WithAttrs := fun h _ => mret h;
  slog.WithGroup := fun h _ => mret h
}.

(** The function names behind the program counters of the tests' log calls:
    [1] lies in the test function, [2] in [testpackage.LogSomething]. *)
Definition testFrames (pc : N) : string :=
  match pc with
  | 1%N => "github.com/cbrewster/slog-env_test.TestPackageFilter.func1"
  | 2%N => "github.com/cbrewster/slog-env/internal/testpackage.LogSomething"
  | _ => ""
  end.

(** A test: [GO_LOG] is set to [filter], and the [testHandler] at location
    [1] has recorded nothing. *)
Definition testStart (filter : string) : @state testSink loc :=
  {| handlers := ∅;
     maps := ∅;
     environ := {["GO_LOG" := filter]};
     sink := {[1%positive := []]} |}.

(** The state [NewHandler(&h)] leaves from [testStart filter], when [filter]
    parses to the level [d] and the overrides [overrides]: the new handler and
    its map are both at location [1]. *)
Definition testState (filter : string) (d : slog.Level)
  (overrides : gmap string slog.Level) : @state testSink loc :=
  {| handlers := {[1%positive := {| inner := 1%positive;
                                    defaultLevel := d;
                                    perPackageLevel := 1%positive |}]};
     maps := {[1%positive := overrides]};
     environ := {["GO_LOG" := filter]};
     sink := {[1%positive := []]} |}.

Definition testRecord (level : slog.Level) (message : string) (pc : N) : slog.Record :=
  {| slog.Record_Time := 0;
     slog.Record_Message := message;
     slog.Record_Level := level;
     slog.Record_PC := pc |}.

(** The handler of the test with the filter ["error,testpackage=debug"]. *)
Definition testFilteredHandler : @Handler loc :=
  {| inner := 1%positive;
     defaultLevel := slog.LevelError;
     perPackageLevel := 1%positive |}.

Definition testFiltered : @state testSink loc :=
  testState "error,testpackage=debug" slog.LevelError {["testpackage" := slog.LevelDebug]}.

(** The handler of the test with the filter ["warn"]. *)
Definition testPlainHandler : @Handler loc :=
  {| inner := 1%positive;
     defaultLevel := slog.LevelWarn;
     perPackageLevel := 1%positive |}.

Definition testPlain : @state testSink loc := testState "warn" slog.LevelWarn ∅.

(** [Logger.Log] of [log/slog], on a handler of this package: the record is
    built and handed to [Handle] only when [Enabled] says so. *)
Definition Logger_Log {error context Sink Inner : Type}
  `{!slog.Handler error context Sink Inner} (frameFunction : N -> string)
  (h : loc) (ctx : context) (level : slog.Level) (msg : string) (pc : N)
  : M (@state Sink Inner) unit :=
  enabled ← Handler_Enabled h ctx level;
  if enabled : bool then
    _ ← Handler_Handle frameFunction h ctx (testRecord level msg pc);
    mret tt
  else mret tt.

(** The four log calls of the test functions, and the four calls they make
    through [testpackage.LogSomething]. *)
Definition testLogs (frameFunction : N -> string) (h : loc) : M (@state testSink loc) unit :=
  _ ← Logger_Log frameFunction h tt slog.LevelDebug "debug" 1;
  _ ← Logger_Log frameFunction h tt slog.LevelInfo "info" 1;
  _ ← Logger_Log frameFunction h tt slog.LevelWarn "warn" 1;
  Logger_Log frameFunction h tt slog.LevelError "error" 1.

Definition testpackageLogs (frameFunction : N -> string) (h : loc)
  : M (@state testSink loc) unit :=
  _ ← Logger_Log frameFunction h tt slog.LevelDebug "testpackage debug" 2;
  _ ← Logger_Log frameFunction h tt slog.LevelInfo "testpackage info" 2;
  _ ← Logger_Log frameFunction h tt slog.LevelWarn "testpackage warn" 2;
  Logger_Log frameFunction h tt slog.LevelError "testpackage error" 2.

(** ** Notions of the specification *)

(** The level a token denotes, when the level type decodes it. *)
Definition levelToken (tok : string) : option slog.Level :=
  match slog.UnmarshalText slog.zeroLevel tok with
  | (v, None) => Some v
  | (_, Some _) => None
  end.

(** A term of a filter: a bare level, or [module=level] around the first [=]. *)
Inductive term : Type :=
| Bare (level : string)
| Override (module level : string).

Definition termOf (t : string) : term :=
  let '(first, second, ok) := Cut t "=" in
  if ok then Override first second else Bare first.

Definition terms (filter : string) : list term := map termOf (Split filter ",").

Definition termLevel (t : term) : string :=
  match t with Bare level => level | Override _ level => level end.

(** The level text of the last bare term. *)
Fixpoint lastBare (ts : list term) : option string :=
  match ts with
  | [] => None
  | t :: ts' =>
      match lastBare ts' with
      | Some level => Some level
      | None => match t with Bare level => Some level | Override _ _ => None end
      end
  end.

(** The level text of the last term for a module. *)
Fixpoint lastOverride (module : string) (ts : list term) : option string :=
  match ts with
  | [] => None
  | t :: ts' =>
      match lastOverride module ts' with
      | Some level => Some level
      | None =>
          match t with
          | Override m level => if String.eqb m module then Some level else None
          | Bare _ => None
          end
      end
  end.

(** The named levels of [log/slog]. *)
Definition namedLevels : list slog.Level :=
  [slog.LevelDebug; slog.LevelInfo; slog.LevelWarn; slog.LevelError].

Definition lowestLevel (v : slog.Level) : Prop :=
  Forall (fun l => v <= l) namedLevels.

(** The last ['/']-separated segment of a symbol, in the words of the
    specification: what follows the last ['/']. *)
Fixpoint occurs (c : ascii) (s : string) : bool :=
  match s with
  | EmptyString => false
  | String d s' => Ascii.eqb d c || occurs c s'
  end.

Fixpoint spec_lastSegment (s : string) : string :=
  match s with
  | EmptyString => EmptyString
  | String c s' =>
      if occurs "/" s' then spec_lastSegment s'
      else if Ascii.eqb c "/" then s' else s
  end.

(** The substring before the first occurrence of a byte. *)
Fixpoint spec_before (c : ascii) (s : string) : string :=
  match s with
  | EmptyString => EmptyString
  | String d s' => if Ascii.eqb d c then EmptyString else String d (spec_before c s')
  end.

(** The module of a caller symbol, in the words of the specification: the
    substring before the first ['.'] of the last ['/']-separated segment;
    none when that segment has no ['.']. *)
Definition spec_module (symbol : string) : option string :=
  let segment := spec_lastSegment symbol in
  if occurs "." segment then Some (spec_before "." segment) else None.

(** The loop body on a term: the level is replaced when the token decodes,
    and kept otherwise. *)
Definition applyTerm (st : slog.Level * gmap string slog.Level) (t : term)
  : slog.Level * gmap string slog.Level :=
  match t with
  | Bare level => (default (fst st) (levelToken level), snd st)
  | Override module level =>
      (fst st, <[module := default (mapIndex (snd st) module) (levelToken level)]> (snd st))
  end.

Definition validTerm (t : term) : Prop := is_Some (levelToken (termLevel t)).

Definition validTermb (t : term) : bool :=
  match levelToken (termLevel t) with Some _ => true | None => false end.

(** The effective level of a record, by the three steps of the
    specification: the default level when there are no overrides; otherwise
    the override of the caller's module, and the default level when the module
    cannot be resolved or has no override. *)
Definition spec_effectiveLevel (frameFunction : N -> string)
  (d : slog.Level) (overrides : gmap string slog.Level) (record : slog.Record)
  : slog.Level :=
  if decide (overrides = ∅) then d
  else match spec_module (frameFunction (slog.Record_PC record)) with
       | Some module =>
           match overrides !! module with
           | Some level => level
           | None => d
           end
       | None => d
       end.

(** The filter text [NewHandler] parses, in the words of the specification:
    the value of the environment variable when it is set, the default filter
    text otherwise. *)
Definition spec_filterText (env : gmap string string) (cfg : config) : string :=
  match env !! config_envVarName cfg with
  | Some value => value
  | None => config_defaultFilter cfg
  end.

(** The same with the guard of the source: a value that is set and empty
    counts as unset. *)
Definition filterText (env : gmap string string) (cfg : config) : string :=
  match env !! config_envVarName cfg with
  | Some value => if String.eqb value "" then config_defaultFilter cfg else value
  | None => config_defaultFilter cfg
  end.

Section Derivation.

Context {error context Sink Inner : Type}.
Context `{!slog.Handler error context Sink Inner}.
Variable frameFunction : N -> string.

(** What [WithAttrs] and [WithGroup] are to return on the handler [h], whose
    struct is [hv], in state [σ], once the wrapped handler has derived
    [inner'] and left the sink as [s]: a new handler, around [inner'], with
    the default level and the very map of the receiver; every handler that
    existed, the receiver among them, and every map as they were; and, for
    every record, the effective level of the receiver. *)
Definition derivedFrom (h : loc) (hv : @Handler Inner) (σ : @state Sink Inner)
  (inner' : Inner) (s : Sink) (result : option (loc * @state Sink Inner)) : Prop :=
  exists h' σ',
    result = Some (h', σ')
    /\ handlers σ !! h' = None
    /\ handlers σ' !! h'
       = Some {| inner := inner';
                 defaultLevel := defaultLevel hv;
                 perPackageLevel := perPackageLevel hv |}
    /\ (forall p, p <> h' -> handlers σ' !! p = handlers σ !! p)
    /\ handlers σ' !! h = Some hv
    /\ maps σ' = maps σ
    /\ environ σ' = environ σ
    /\ sink σ' = s
    /\ forall record, exists level,
        getLevelForRecord frameFunction h' record σ' = Some (level, σ')
        /\ getLevelForRecord frameFunction h record σ' = Some (level, σ')
        /\ getLevelForRecord frameFunction h record σ = Some (level, σ).

End Derivation.

(** ** Notions for the parser on arbitrary filters *)

(** The level of the last bare term whose level text decodes. *)
Fixpoint lastDecodedBare (ts : list term) : option slog.Level :=
  match ts with
  | [] => None
  | t :: ts' =>
      match lastDecodedBare ts' with
      | Some v => Some v
      | None => match t with Bare tok => levelToken tok | Override _ _ => None end
      end
  end.

(** The level of the last term for a module whose level text decodes. *)
Fixpoint lastDecodedOverride (module : string) (ts : list term) : option slog.Level :=
  match ts with
  | [] => None
  | t :: ts' =>
      match lastDecodedOverride module ts' with
      | Some v => Some v
      | None =>
          match t with
          | Override m tok => if String.eqb m module then levelToken tok else None
          | Bare _ => None
          end
      end
  end.

(** The modules the terms of a filter name, in order. *)
Fixpoint modulesOf (ts : list term) : list string :=
  match ts with
  | [] => []
  | Bare _ :: ts' => modulesOf ts'
  | Override m _ :: ts' => m :: modulesOf ts'
  end.

(** ** Chains of derived handlers, and handlers around handlers *)

Section Chains.

Context {error context Sink Inner : Type}.
Context `{!slog.Handler error context Sink Inner}.

(** One call of [WithAttrs] or [WithGroup]. *)
Inductive derivation : Type :=
| withAttrs (attrs : list slog.Attr)
| withGroup (name : string).

Definition derive (h : loc) (step : derivation) : M (@state Sink Inner) loc :=
  match step with
  | withAttrs attrs => Handler_WithAttrs h attrs
  | withGroup name => Handler_WithGroup h name
  end.

(** A chain of such calls, each on the handler the previous one returned. *)
Fixpoint deriveAll (h : loc) (steps : list derivation) : M (@state Sink Inner) loc :=
  match steps with
  | [] => mret h
  | step :: steps' => h' ← derive h step; deriveAll h' steps'
  end.

End Chains.

(** A handler of this package around the handler of the test with the filter
    ["error,testpackage=debug"]: its level is [LevelWarn] and it has no
    overrides. *)
Definition testStackedHandler : @Handler loc :=
  {| inner := 1%positive;
     defaultLevel := slog.LevelWarn;
     perPackageLevel := 1%positive |}.

Definition testStacked : @state (@state testSink loc) loc :=
  {| handlers := {[1%positive := testStackedHandler]};
     maps := {[1%positive := ∅]};
     environ := ∅;
     sink := testFiltered |}.

(** A handler whose only override has a key no package name can equal. *)
Definition testDeadHandler : @Handler loc :=
  {| inner := 1%positive;
     defaultLevel := slog.LevelInfo;
     perPackageLevel := 1%positive |}.

Definition testDead : @state testSink loc :=
  testState "github.com/cbrewster/slog-env/internal/testpackage=debug" slog.LevelInfo
    {["github.com/cbrewster/slog-env/internal/testpackage" := slog.LevelDebug]}.

(** * Verification *)

(** ** The level decoding on examples *)

Example levelToken_names :
  map levelToken ["debug"; "INFO"; "Warn"; "error"; "info+4"; "warn-2"]
  = [Some slog.LevelDebug; Some slog.LevelInfo; Some slog.LevelWarn;
     Some slog.LevelError; Some 4; Some 2].
Proof. vm_compute. reflexivity. Qed.

Example levelToken_unknown :
  map levelToken [""; "loud"; "info+"; "info+-3"; "info+x"; "+4"; " info"]
  = [None; None; None; None; None; None; None].
Proof. vm_compute. reflexivity. Qed.

(** The dotless i, U+0131, is two bytes whose upper case is the letter [I]. *)
Example levelToken_dotless_i :
  levelToken (String "196" (String "177" "nfo")) = Some slog.LevelInfo.
Proof. vm_compute. reflexivity. Qed.

Example Atoi_range :
  Atoi "+9223372036854775807" = Some maxInt
  /\ Atoi "+9223372036854775808" = None
  /\ Atoi "-9223372036854775808" = Some minInt.
Proof. vm_compute. auto. Qed.

Example parsePackage_doc :
  parsePackage "github.com/cbrewster/slog-env_test.TestFilterPackage"
  = ("slog-env_test", true).
Proof. vm_compute. reflexivity. Qed.

Example parseFilter_doc :
  parseFilter slog.LevelInfo "error,mypackage=debug,otherpackage=info"
  = (slog.LevelError,
     <["otherpackage" := slog.LevelInfo]> (<["mypackage" := slog.LevelDebug]> ∅)).
Proof. vm_compute. reflexivity. Qed.

(** ** The filter parser *)

Section Parser.

Implicit Types (d : slog.Level) (m : gmap string slog.Level) (ts : list term).

Lemma UnmarshalText_level l tok :
  fst (slog.UnmarshalText l tok) = default l (levelToken tok).
Proof.
  unfold levelToken, slog.UnmarshalText, slog.parse.
  destruct (slog.splitOffset tok) as [name off].
  destruct (match off with Some o => Atoi o | None => Some 0 end); [|done].
  destruct (slog.levelOfName name); done.
Qed.

Lemma UnmarshalText_error l tok :
  snd (slog.UnmarshalText l tok) = None <-> is_Some (levelToken tok).
Proof.
  unfold levelToken, slog.UnmarshalText, slog.parse.
  destruct (slog.splitOffset tok) as [name off].
  destruct (match off with Some o => Atoi o | None => Some 0 end); simpl.
  - destruct (slog.levelOfName name); simpl; split; intros Hx;
      eauto; try done; by destruct Hx.
  - split; intros Hx; [done | by destruct Hx].
Qed.

Lemma UnmarshalText_fails l tok :
  levelToken tok = None -> exists e, slog.UnmarshalText l tok = (l, Some e).
Proof.
  unfold levelToken, slog.UnmarshalText, slog.parse.
  destruct (slog.splitOffset tok) as [name off].
  destruct (match off with Some o => Atoi o | None => Some 0 end); [|eauto].
  destruct (slog.levelOfName name); [done | eauto].
Qed.

Lemma parseFilterTerm_applyTerm st t :
  parseFilterTerm st t = applyTerm st (termOf t).
Proof.
  destruct st as [d m]. unfold parseFilterTerm, termOf.
  destruct (Cut t "=") as [[first second] ok].
  destruct ok; simpl; by rewrite UnmarshalText_level.
Qed.

Lemma fold_parseFilterTerm l st :
  fold_left parseFilterTerm l st = fold_left applyTerm (map termOf l) st.
Proof.
  revert st. induction l as [|t l IH]; intros st; simpl; [done|].
  by rewrite parseFilterTerm_applyTerm, IH.
Qed.

Lemma parseFilter_terms d filter :
  parseFilter d filter = fold_left applyTerm (terms filter) (d, ∅).
Proof. unfold parseFilter, terms. apply fold_parseFilterTerm. Qed.

Lemma fold_applyTerm_valid ts :
  Forall validTerm ts ->
  forall d m,
    Some (fst (fold_left applyTerm ts (d, m)))
    = match lastBare ts with Some tok => levelToken tok | None => Some d end
    /\ forall k, snd (fold_left applyTerm ts (d, m)) !! k
                 = match lastOverride k ts with
                   | Some tok => levelToken tok
                   | None => m !! k
                   end.
Proof.
  induction 1 as [|t ts [v Hv] _ IH]; intros d m; simpl; [done|].
  destruct t as [level|module level]; simpl in *; rewrite Hv; simpl.
  - destruct (IH v m) as [IHd IHm]. split.
    + rewrite IHd. by destruct (lastBare ts).
    + intros k. rewrite IHm. by destruct (lastOverride k ts).
  - destruct (IH d (<[module := v]> m)) as [IHd IHm]. split.
    + rewrite IHd. by destruct (lastBare ts).
    + intros k. rewrite IHm. destruct (lastOverride k ts); [done|].
      destruct (String.eqb_spec module k) as [->|Hne].
      * by rewrite lookup_insert_eq.
      * by rewrite lookup_insert_ne.
Qed.

(** A term list without a term for [k] leaves the entry of [k] alone. *)
Lemma fold_applyTerm_untouched k ts :
  lastOverride k ts = None ->
  forall d m, snd (fold_left applyTerm ts (d, m)) !! k = m !! k.
Proof.
  induction ts as [|t ts IH]; intros Hk d m; simpl in *; [done|].
  destruct (lastOverride k ts) eqn:Hl; [done|].
  destruct t as [level|module level]; simpl.
  - by apply IH.
  - destruct (String.eqb_spec module k) as [->|Hne]; [done|].
    rewrite IH by done. by rewrite lookup_insert_ne.
Qed.

Lemma mapIndex_insert m k v j :
  mapIndex (<[k := v]> m) j = if decide (k = j) then v else mapIndex m j.
Proof.
  unfold mapIndex. rewrite lookup_insert. by case_decide.
Qed.

Lemma occurs_false_app c s1 s2 :
  occurs c (s1 ++ s2) = occurs c s1 || occurs c s2.
Proof.
  induction s1 as [|a s1 IH]; simpl; [done|].
  by rewrite IH, orb_assoc.
Qed.

Lemma Cut_app_sep s c rest :
  occurs c s = false -> Cut (s ++ String c rest) c = (s, rest, true).
Proof.
  induction s as [|a s IH]; simpl; intros Hs.
  - by rewrite Ascii.eqb_refl.
  - apply orb_false_elim in Hs as [Ha Hs]. rewrite Ha, (IH Hs). done.
Qed.

End Parser.

Lemma validTerms_check ts : forallb validTermb ts = true -> Forall validTerm ts.
Proof.
  induction ts as [|t ts IH]; simpl; intros Hts; constructor.
  - apply andb_prop in Hts as [Ht _]. unfold validTerm, validTermb in *.
    destruct (levelToken (termLevel t)); [eauto | done].
  - apply IH. by apply andb_prop in Hts as [_ Hts].
Qed.

(** C3. When every term of the filter carries a level token that decodes,
    [parseFilter] applies the terms left to right and later terms win: the
    default level it returns is the level of the last bare term (the default
    it was handed when the filter has no bare term), and the override of each
    module is the level of the last [module=level] term for that module (no
    entry when the filter has no term for it). *)
Theorem parseFilter_later_terms_win (d : slog.Level) (filter : string) :
  Forall validTerm (terms filter) ->
  Some (fst (parseFilter d filter))
  = match lastBare (terms filter) with
    | Some tok => levelToken tok
    | None => Some d
    end
  /\ forall module : string,
      snd (parseFilter d filter) !! module
      = match lastOverride module (terms filter) with
        | Some tok => levelToken tok
        | None => None
        end.
Proof.
  intros Hvalid. rewrite parseFilter_terms.
  destruct (fold_applyTerm_valid _ Hvalid d ∅) as [Hd Hm].
  split; [exact Hd|]. intros module. rewrite Hm.
  destruct (lastOverride module (terms filter)); [done | apply lookup_empty].
Qed.

(** The example of the specification: in ["mypackage=error,mypackage=info"]
    the later term wins, and in ["warn,debug"] the later bare term does. *)
Lemma parseFilter_later_terms_win_witness :
  Forall validTerm (terms "warn,mypackage=error,debug,mypackage=info")
  /\ fst (parseFilter slog.LevelInfo "warn,mypackage=error,debug,mypackage=info")
     = slog.LevelDebug
  /\ snd (parseFilter slog.LevelInfo "warn,mypackage=error,debug,mypackage=info")
       !! "mypackage" = Some slog.LevelInfo.
Proof.
  assert (Hv : Forall validTerm (terms "warn,mypackage=error,debug,mypackage=info")).
  { apply validTerms_check. vm_compute. reflexivity. }
  split; [exact Hv|].
  destruct (parseFilter_later_terms_win slog.LevelInfo _ Hv) as [Hd Hm].
  split.
  - apply (inj Some). rewrite Hd. vm_compute. reflexivity.
  - rewrite (Hm "mypackage"). vm_compute. reflexivity.
Defined.

(** C4, as stated, fails for a [module=level] term whose module has no entry
    yet: the term is not ignored. In ["error,m=loud"] the text [loud] does not
    decode, the module [m] has no entry when the term is reached, and the term
    leaves an entry for [m] at the zero level, so the result is not that of
    ["error"]. *)
Lemma parseFilter_bad_level_not_ignored :
  Split "error,m=loud" "," = (["error"] ++ "m=loud" :: [])%list
  /\ levelToken (termLevel (termOf "m=loud")) = None
  /\ snd (fold_left parseFilterTerm ["error"] (slog.LevelInfo, ∅)) !! "m" = None
  /\ snd (parseFilterTerm (fold_left parseFilterTerm ["error"] (slog.LevelInfo, ∅)) "m=loud")
       !! "m" = Some slog.zeroLevel
  /\ parseFilter slog.LevelInfo "error,m=loud" <> parseFilter slog.LevelInfo "error".
Proof.
  split; [vm_compute; reflexivity|]. split; [vm_compute; reflexivity|].
  split; [vm_compute; reflexivity|]. split; [vm_compute; reflexivity|].
  intros Heq. apply (f_equal (fun r => snd r !! "m")) in Heq.
  vm_compute in Heq. discriminate.
Qed.

(** C4, amended. A term whose level token does not decode surfaces no error
    and never changes the default level. With [before] the loop's state when
    the term is reached and [after] the state past it: a bare term changes
    nothing at all; a [module=level] term changes no entry of another module,
    changes nothing at all when the module already has an entry, and, when
    the module has no entry yet, records one for it at the zero level, which
    is [LevelInfo]. The rest of the filter is then parsed from [after]. The
    decoding does return an error, with its receiver unchanged, and the error
    goes nowhere: [parseFilter] returns the pair. *)
Theorem parseFilter_bad_level
  (d : slog.Level) (filter : string) (pre : list string) (t : string) (post : list string) :
  Split filter "," = (pre ++ t :: post)%list ->
  levelToken (termLevel (termOf t)) = None ->
  let before := fold_left parseFilterTerm pre (d, ∅) in
  let after := parseFilterTerm before t in
  (forall l, exists e, slog.UnmarshalText l (termLevel (termOf t)) = (l, Some e))
  /\ parseFilter d filter = fold_left parseFilterTerm post after
  /\ fst after = fst before
  /\ match termOf t with
     | Bare _ => after = before
     | Override module _ =>
         (forall k, k <> module -> snd after !! k = snd before !! k)
         /\ (is_Some (snd before !! module) -> after = before)
         /\ (snd before !! module = None ->
             snd after = <[module := slog.zeroLevel]> (snd before)
             /\ slog.zeroLevel = slog.LevelInfo)
     end.
Proof.
  intros Hsplit Hbad before after.
  assert (Hparse : parseFilter d filter = fold_left parseFilterTerm post after).
  { unfold parseFilter. rewrite Hsplit, fold_left_app. done. }
  assert (Hafter : after = applyTerm before (termOf t))
    by apply parseFilterTerm_applyTerm.
  split; [intros l; by apply UnmarshalText_fails|].
  split; [exact Hparse|].
  rewrite Hafter. destruct (termOf t) as [level|module level]; simpl in *;
    rewrite Hbad; simpl.
  - split; [done|]. by destruct before.
  - split; [done|]. split; [|split].
    + intros k Hk. by rewrite lookup_insert_ne.
    + intros [v Hv]. unfold mapIndex. rewrite Hv. simpl.
      rewrite insert_id by done. by destruct before.
    + intros Hnone. unfold mapIndex. by rewrite Hnone.
Qed.

(** In ["error,m=debug,m=loud,n=loud"] neither [m=loud] nor [n=loud] decodes:
    [m] has an entry when [m=loud] is reached and the term changes nothing;
    [n] has none when [n=loud] is reached and gets one at the zero level. *)
Lemma parseFilter_bad_level_witness :
  Split "error,m=debug,m=loud,n=loud" ","
  = (["error"; "m=debug"] ++ "m=loud" :: ["n=loud"])%list
  /\ levelToken (termLevel (termOf "m=loud")) = None
  /\ parseFilterTerm (fold_left parseFilterTerm ["error"; "m=debug"] (slog.LevelInfo, ∅)) "m=loud"
     = fold_left parseFilterTerm ["error"; "m=debug"] (slog.LevelInfo, ∅)
  /\ Split "error,m=debug,m=loud,n=loud" ","
     = (["error"; "m=debug"; "m=loud"] ++ "n=loud" :: [])%list
  /\ levelToken (termLevel (termOf "n=loud")) = None
  /\ snd (parseFilterTerm
            (fold_left parseFilterTerm ["error"; "m=debug"; "m=loud"] (slog.LevelInfo, ∅))
            "n=loud")
     = <["n" := slog.zeroLevel]>
         (snd (fold_left parseFilterTerm ["error"; "m=debug"; "m=loud"] (slog.LevelInfo, ∅))).
Proof.
  assert (Hsplit : Split "error,m=debug,m=loud,n=loud" ","
                   = (["error"; "m=debug"] ++ "m=loud" :: ["n=loud"])%list)
    by (vm_compute; reflexivity).
  assert (Hbad : levelToken (termLevel (termOf "m=loud")) = None)
    by (vm_compute; reflexivity).
  assert (Hsplit' : Split "error,m=debug,m=loud,n=loud" ","
                    = (["error"; "m=debug"; "m=loud"] ++ "n=loud" :: [])%list)
    by (vm_compute; reflexivity).
  assert (Hbad' : levelToken (termLevel (termOf "n=loud")) = None)
    by (vm_compute; reflexivity).
  split; [exact Hsplit|]. split; [exact Hbad|]. split.
  - destruct (parseFilter_bad_level slog.LevelInfo _ _ _ _ Hsplit Hbad)
      as (_ & _ & _ & H).
    change (termOf "m=loud") with (Override "m" "loud") in H.
    destruct H as (_ & H & _). apply H. vm_compute. eauto.
  - split; [exact Hsplit'|]. split; [exact Hbad'|].
    destruct (parseFilter_bad_level slog.LevelInfo _ _ _ _ Hsplit' Hbad')
      as (_ & _ & _ & H).
    change (termOf "n=loud") with (Override "n" "loud") in H.
    destruct H as (_ & _ & H). apply H. vm_compute. reflexivity.
Defined.

(** C7, as stated, fails: the entry a [module=] term records holds the zero
    value of the level type, and that is not the lowest level. *)
Lemma parseFilter_empty_level_not_lowest :
  snd (parseFilter slog.LevelInfo "m=") !! "m" = Some slog.zeroLevel
  /\ ~ lowestLevel slog.zeroLevel.
Proof.
  split; [vm_compute; reflexivity|].
  intros Hlow. apply Forall_cons_1 in Hlow as [Hdebug _].
  vm_compute in Hdebug. by apply Hdebug.
Qed.

(** C7, amended. A term [module=] (empty level text) for a module no earlier
    term names records an entry for the module whose value is the zero value
    of the level type, which is [LevelInfo]; [LevelDebug] is below it. The
    entry is still there in the result when no later term names the module. *)
Theorem parseFilter_empty_level
  (d : slog.Level) (filter : string) (pre : list string) (module : string) (post : list string) :
  Split filter "," = (pre ++ (module ++ "=")%string :: post)%list ->
  occurs "=" module = false ->
  lastOverride module (map termOf pre) = None ->
  snd (fold_left parseFilterTerm (pre ++ [(module ++ "=")%string])%list (d, ∅)) !! module
  = Some slog.zeroLevel
  /\ slog.zeroLevel = slog.LevelInfo
  /\ slog.LevelDebug < slog.zeroLevel
  /\ (lastOverride module (map termOf post) = None ->
      snd (parseFilter d filter) !! module = Some slog.zeroLevel).
Proof.
  intros Hsplit Hmod Hpre.
  assert (Hterm : termOf (module ++ "=") = Override module "").
  { unfold termOf. by rewrite (Cut_app_sep module "=" "" Hmod). }
  assert (Hat : snd (fold_left parseFilterTerm (pre ++ [(module ++ "=")%string])%list (d, ∅)) !! module
                = Some slog.zeroLevel).
  { rewrite fold_left_app. simpl. rewrite parseFilterTerm_applyTerm, Hterm.
    rewrite fold_parseFilterTerm. simpl.
    destruct (fold_left applyTerm (map termOf pre) (d, ∅)) as [d' m'] eqn:Hfold.
    simpl. rewrite lookup_insert_eq. f_equal.
    unfold mapIndex.
    pose proof (fold_applyTerm_untouched module _ Hpre d ∅) as Hun.
    rewrite Hfold in Hun. simpl in Hun. rewrite Hun, lookup_empty. done. }
  split; [exact Hat|]. split; [done|]. split; [done|].
  intros Hpost. unfold parseFilter.
  rewrite Hsplit, (cons_middle _ pre post), app_assoc, fold_left_app.
  destruct (fold_left parseFilterTerm (pre ++ [(module ++ "=")%string])%list (d, ∅)) as [d' m'].
  rewrite fold_parseFilterTerm, fold_applyTerm_untouched by done. exact Hat.
Qed.

(** The filter ["error,m=,n=debug"]: the entry of [m] is [LevelInfo] although
    the entry of [n] is lower and the default is higher. *)
Lemma parseFilter_empty_level_witness :
  Split "error,m=,n=debug" "," = (["error"] ++ ("m" ++ "=")%string :: ["n=debug"])%list
  /\ occurs "=" "m" = false
  /\ lastOverride "m" (map termOf ["error"]) = None
  /\ lastOverride "m" (map termOf ["n=debug"]) = None
  /\ snd (parseFilter slog.LevelWarn "error,m=,n=debug") !! "m" = Some slog.LevelInfo.
Proof.
  assert (Hsplit : Split "error,m=,n=debug" ","
                   = (["error"] ++ ("m" ++ "=")%string :: ["n=debug"])%list)
    by (vm_compute; reflexivity).
  assert (Hpre : lastOverride "m" (map termOf ["error"]) = None)
    by (vm_compute; reflexivity).
  assert (Hpost : lastOverride "m" (map termOf ["n=debug"]) = None)
    by (vm_compute; reflexivity).
  split; [exact Hsplit|]. split; [reflexivity|]. split; [exact Hpre|].
  split; [exact Hpost|].
  destruct (parseFilter_empty_level slog.LevelWarn _ _ _ _ Hsplit eq_refl Hpre)
    as (_ & _ & _ & H).
  exact (H Hpost).
Defined.

(** ** Caller symbols *)

Section Symbols.

Lemma spec_lastSegment_id s : occurs "/" s = false -> spec_lastSegment s = s.
Proof.
  destruct s as [|c s]; simpl; [done|].
  intros Hs. apply orb_false_elim in Hs as [Hc Hs]. by rewrite Hs, Hc.
Qed.

Lemma Split_no_sep s sep : occurs sep s = false -> Split s sep = [s].
Proof.
  induction s as [|c s IH]; simpl; [done|].
  intros Hs. apply orb_false_elim in Hs as [Hc Hs]. by rewrite Hc, (IH Hs).
Qed.

Lemma Split_sep s sep :
  occurs sep s = true -> exists w w' ws, Split s sep = w :: w' :: ws.
Proof.
  induction s as [|c s IH]; simpl; [done|].
  destruct (Ascii.eqb c sep) eqn:Hc; simpl.
  - intros _. destruct (occurs sep s) eqn:Hs.
    + destruct (IH eq_refl) as (w & w' & ws & ->). eauto.
    + rewrite (Split_no_sep _ _ Hs). eauto.
  - intros Hs. destruct (IH Hs) as (w & w' & ws & ->). eauto.
Qed.

Lemma Split_nonempty s sep : Split s sep <> [].
Proof.
  destruct s as [|c s]; simpl; [done|].
  destruct (Ascii.eqb c sep); [done|]. by destruct (Split s sep).
Qed.

Lemma lastPart_cons w w' ws : lastPart (w :: w' :: ws) = lastPart (w' :: ws).
Proof. done. Qed.

(** The last piece of [strings.Split(s, "/")] is what follows the last ['/']. *)
Lemma lastPart_Split s : lastPart (Split s "/") = spec_lastSegment s.
Proof.
  induction s as [|c s IH]; [done|].
  cbn [Split spec_lastSegment].
  destruct (occurs "/" s) eqn:Hs.
  - destruct (Split_sep _ _ Hs) as (w & w' & ws & Hsplit).
    rewrite Hsplit in *. rewrite <- IH.
    destruct (Ascii.eqb c "/"); by rewrite !lastPart_cons.
  - rewrite (Split_no_sep _ _ Hs).
    destruct (Ascii.eqb c "/"); done.
Qed.

(** [strings.Cut(s, sep)] finds the separator exactly when it occurs, and what
    it returns first is the substring before its first occurrence. *)
Lemma Cut_before s sep :
  (Cut s sep).1.1 = spec_before sep s /\ (Cut s sep).2 = occurs sep s.
Proof.
  induction s as [|c s [IH1 IH2]]; simpl; [done|].
  destruct (Ascii.eqb c sep); simpl; [done|].
  destruct (Cut s sep) as [[b a] f]. simpl in *. by subst.
Qed.

Lemma spec_before_id c s : occurs c s = false -> spec_before c s = s.
Proof.
  induction s as [|a s IH]; simpl; [done|].
  intros Hs. apply orb_false_elim in Hs as [-> Hs]. by rewrite IH.
Qed.

(** [parsePackage] computes the module of the specification. *)
Lemma parsePackage_spec function :
  parsePackage function
  = match spec_module function with
    | Some module => (module, true)
    | None => (spec_lastSegment function, false)
    end.
Proof.
  unfold parsePackage, spec_module. rewrite lastPart_Split.
  destruct (Cut_before (spec_lastSegment function) ".") as [H1 H2].
  destruct (Cut (spec_lastSegment function) ".") as [[pkg after] ok].
  simpl in H1, H2. rewrite H1, H2.
  destruct (occurs "." (spec_lastSegment function)) eqn:Hdot; [done|].
  by rewrite spec_before_id.
Qed.

End Symbols.

(** ** The handler *)

Section HandlerProofs.

Context {error context Sink Inner : Type}.
Context `{!slog.Handler error context Sink Inner}.
Variable frameFunction : N -> string.

Implicit Types (h : loc) (hv : @Handler Inner) (σ : @state Sink Inner)
  (ctx : context) (record : slog.Record) (level : slog.Level).

Lemma bind_run {St A B} (c : M St A) (f : A -> M St B) (s : St) :
  (c ≫= f) s = match c s with Some (a, s') => f a s' | None => None end.
Proof. done. Qed.

Lemma loadHandler_run h hv σ :
  handlers σ !! h = Some hv -> loadHandler h σ = Some (hv, σ).
Proof. intros Hh. unfold loadHandler. by rewrite Hh. Qed.

Lemma size_zero_empty (m : gmap string slog.Level) :
  Nat.eqb (size m) 0 = bool_decide (m = ∅).
Proof.
  destruct (Nat.eqb_spec (size m) 0) as [Hz|Hz].
  - apply map_size_empty_inv in Hz. by rewrite bool_decide_eq_true_2.
  - rewrite bool_decide_eq_false_2; [done|]. intros ->. by apply Hz.
Qed.

(** [getLevelForRecord] returns, never panics on a handler that exists and
    leaves the state alone; the level is that of the specification. *)
Lemma getLevelForRecord_run h hv σ record :
  handlers σ !! h = Some hv ->
  getLevelForRecord frameFunction h record σ
  = Some (spec_effectiveLevel frameFunction (defaultLevel hv)
            (readMap σ (perPackageLevel hv)) record, σ).
Proof.
  intros Hh. unfold getLevelForRecord, spec_effectiveLevel.
  rewrite bind_run, (loadHandler_run _ _ _ Hh), bind_run. unfold mapLen.
  rewrite size_zero_empty. case_bool_decide as Hm; [by case_decide|].
  case_decide; [done|].
  rewrite parsePackage_spec.
  destruct (spec_module _) as [module|]; simpl; [|done].
  rewrite bind_run. unfold mapLookup.
  by destruct (readMap σ (perPackageLevel hv) !! module).
Qed.

Lemma Handler_Handle_run h hv σ ctx record :
  handlers σ !! h = Some hv ->
  Handler_Handle frameFunction h ctx record σ
  = if slog.Record_Level record
       <? spec_effectiveLevel frameFunction (defaultLevel hv)
            (readMap σ (perPackageLevel hv)) record
    then Some (None, σ)
    else match slog.Handle (inner hv) ctx record (sink σ) with
         | Some (err, s) => Some (err, setSink s σ)
         | None => None
         end.
Proof.
  intros Hh. unfold Handler_Handle.
  rewrite bind_run, (getLevelForRecord_run _ _ _ _ Hh).
  destruct (_ <? _); [done|].
  by rewrite bind_run, (loadHandler_run _ _ _ Hh).
Qed.

(** C1. [Handle] on a handler [h] and a record: with [level] the effective
    level [getLevelForRecord] resolves (it returns, and leaves the state as it
    is), a record whose level is strictly below [level] is dropped, [Handle]
    returning [nil] with nothing changed; any other record is handed as it is
    to the [Handle] of the wrapped handler, once, and what that call returns
    (its error or [nil], and its effect on the sink, or its panic) is what
    [Handle] returns. *)
Theorem Handle_drops_or_forwards h hv σ ctx record :
  handlers σ !! h = Some hv ->
  exists level,
    getLevelForRecord frameFunction h record σ = Some (level, σ)
    /\ (slog.Record_Level record < level ->
        Handler_Handle frameFunction h ctx record σ = Some (None, σ))
    /\ (~ slog.Record_Level record < level ->
        Handler_Handle frameFunction h ctx record σ
        = match slog.Handle (inner hv) ctx record (sink σ) with
          | Some (err, s) => Some (err, setSink s σ)
          | None => None
          end).
Proof.
  intros Hh. eexists. split; [by apply getLevelForRecord_run|].
  rewrite (Handler_Handle_run _ _ _ _ _ Hh).
  split; intros Hlt.
  - apply Z.ltb_lt in Hlt. by rewrite Hlt.
  - apply Z.ltb_nlt in Hlt. by rewrite Hlt.
Qed.

(** C2. The effective level [Handle] compares a record with: the default
    level when the map of overrides is empty; otherwise [parsePackage] takes,
    from the caller's symbol, the last ['/']-separated segment and what
    precedes its first ['.'], and the level is the override of that module when
    there is one, the default level when the segment has no ['.'] (so also when
    the symbol is unknown, the empty name) or when the module has no override.
    Resolution never makes the call fail: [getLevelForRecord] returns a level,
    and [Handle] returns [nil] or what the wrapped handler returns. *)
Theorem getLevelForRecord_effective h hv σ ctx record :
  handlers σ !! h = Some hv ->
  let overrides := readMap σ (perPackageLevel hv) in
  let function := frameFunction (slog.Record_PC record) in
  exists level,
    getLevelForRecord frameFunction h record σ = Some (level, σ)
    /\ Handler_Handle frameFunction h ctx record σ
       = (if slog.Record_Level record <? level then Some (None, σ)
          else match slog.Handle (inner hv) ctx record (sink σ) with
               | Some (err, s) => Some (err, setSink s σ)
               | None => None
               end)
    /\ (overrides = ∅ -> level = defaultLevel hv)
    /\ (overrides <> ∅ ->
        parsePackage function
        = match spec_module function with
          | Some module => (module, true)
          | None => (spec_lastSegment function, false)
          end
        /\ level = match spec_module function with
                   | Some module =>
                       match overrides !! module with
                       | Some l => l
                       | None => defaultLevel hv
                       end
                   | None => defaultLevel hv
                   end
        /\ (function = "" -> level = defaultLevel hv)).
Proof.
  intros Hh overrides function. eexists.
  split; [by apply getLevelForRecord_run|].
  split; [by apply Handler_Handle_run|].
  unfold spec_effectiveLevel. fold overrides function.
  split.
  - intros Hm. by case_decide.
  - intros Hm. case_decide; [done|].
    split; [apply parsePackage_spec|]. split; [done|].
    intros Hf. by rewrite Hf.
Qed.

Lemma Handler_Enabled_run h hv σ ctx level :
  handlers σ !! h = Some hv ->
  Handler_Enabled h ctx level σ
  = Some (if bool_decide (readMap σ (perPackageLevel hv) = ∅)
          then level >=? defaultLevel hv else true, σ).
Proof.
  intros Hh. unfold Handler_Enabled.
  rewrite bind_run, (loadHandler_run _ _ _ Hh), bind_run. unfold mapLen.
  rewrite size_zero_empty. by case_bool_decide.
Qed.

(** C5. On a handler whose map of overrides is empty, [Enabled(level)]
    returns [level >= defaultLevel], and [Handle] on a record of that level
    emits (forwards to the wrapped handler) exactly when [Enabled] returned
    true, and drops the record otherwise. On a handler whose map of overrides
    is not empty, [Enabled] returns true at every level. *)
Theorem Enabled_fast_path h hv σ ctx level :
  handlers σ !! h = Some hv ->
  (readMap σ (perPackageLevel hv) = ∅ ->
   Handler_Enabled h ctx level σ = Some (level >=? defaultLevel hv, σ)
   /\ ((level >=? defaultLevel hv) = true <-> level >= defaultLevel hv)
   /\ forall record,
       slog.Record_Level record = level ->
       Handler_Handle frameFunction h ctx record σ
       = if level >=? defaultLevel hv
         then match slog.Handle (inner hv) ctx record (sink σ) with
              | Some (err, s) => Some (err, setSink s σ)
              | None => None
              end
         else Some (None, σ))
  /\ (readMap σ (perPackageLevel hv) <> ∅ ->
      Handler_Enabled h ctx level σ = Some (true, σ)).
Proof.
  intros Hh. rewrite (Handler_Enabled_run _ _ _ _ _ Hh). split; intros Hm.
  - rewrite bool_decide_eq_true_2 by done. split; [done|]. split.
    + rewrite Z.geb_leb, Z.leb_le. lia.
    + intros record Hr. rewrite (Handler_Handle_run _ _ _ _ _ Hh).
      unfold spec_effectiveLevel. rewrite decide_True by done.
      rewrite Hr, Z.geb_leb, Z.ltb_antisym. by destruct (_ <=? _).
  - by rewrite bool_decide_eq_false_2.
Qed.

Lemma fresh_handler σ : handlers σ !! fresh (dom (handlers σ)) = None.
Proof. apply not_elem_of_dom, is_fresh. Qed.

Lemma derive_run h hv σ inner' s :
  handlers σ !! h = Some hv ->
  derivedFrom frameFunction h hv σ inner' s
    (newHandler {| inner := inner';
                   defaultLevel := defaultLevel hv;
                   perPackageLevel := perPackageLevel hv |} (setSink s σ)).
Proof.
  intros Hh. pose proof (fresh_handler σ) as Hfresh.
  assert (Hne : h <> fresh (dom (handlers σ))) by (intros Heq; congruence).
  unfold derivedFrom, newHandler. do 2 eexists. split; [done|]. simpl.
  split; [done|]. split; [by rewrite lookup_insert_eq|].
  split; [by intros p Hp; rewrite lookup_insert_ne|].
  split; [by rewrite lookup_insert_ne|].
  do 3 (split; [done|]).
  intros record. eexists. split; [|split].
  - erewrite getLevelForRecord_run; [|simpl; by rewrite lookup_insert_eq]. done.
  - erewrite getLevelForRecord_run; [|simpl; by rewrite lookup_insert_ne]. done.
  - erewrite getLevelForRecord_run by done. done.
Qed.

(** C6. [WithAttrs(attrs)] and [WithGroup(name)] on a handler return a new
    handler around what the wrapped handler's [WithAttrs(attrs)], respectively
    [WithGroup(name)], returned, with the receiver's default level and the
    receiver's map of overrides, the same map and not a copy; the receiver and
    every other handler and map are left as they were; and the new handler
    resolves, for every record, the effective level the receiver resolves, so
    it drops and forwards the same records. *)
Theorem WithAttrs_WithGroup_derive h hv σ attrs name :
  handlers σ !! h = Some hv ->
  (forall inner' s,
      slog.WithAttrs (inner hv) attrs (sink σ) = Some (inner', s) ->
      derivedFrom frameFunction h hv σ inner' s (Handler_WithAttrs h attrs σ))
  /\ (forall inner' s,
        slog.WithGroup (inner hv) name (sink σ) = Some (inner', s) ->
        derivedFrom frameFunction h hv σ inner' s (Handler_WithGroup h name σ)).
Proof.
  intros Hh. split; intros inner' s Hinner.
  - unfold Handler_WithAttrs.
    rewrite bind_run, (loadHandler_run _ _ _ Hh), bind_run.
    unfold liftSink at 1. rewrite Hinner. by apply derive_run.
  - unfold Handler_WithGroup.
    rewrite bind_run, (loadHandler_run _ _ _ Hh), bind_run.
    unfold liftSink at 1. rewrite Hinner. by apply derive_run.
Qed.

Lemma NewHandler_run (i : Inner) opts σ :
  let cfg := applyOpts opts initialConfig in
  let parsed := parseFilter (config_defaultLevel cfg) (filterText (environ σ) cfg) in
  let m := fresh (dom (maps σ) ∪ mapRefs σ) in
  let h := fresh (dom (handlers σ)) in
  NewHandler i opts σ
  = Some (h, setHandlers
               (<[h := {| inner := i; defaultLevel := parsed.1; perPackageLevel := m |}]>
                  (handlers σ))
               (setMaps (<[m := parsed.2]> (maps σ)) σ)).
Proof.
  intros cfg parsed m h. unfold NewHandler. fold cfg.
  rewrite bind_run. unfold Getenv.
  assert (Hfilter : (if negb (String.eqb (default "" (environ σ !! config_envVarName cfg)) "")
                     then default "" (environ σ !! config_envVarName cfg)
                     else config_defaultFilter cfg) = filterText (environ σ) cfg).
  { unfold filterText. destruct (environ σ !! config_envVarName cfg) as [v|]; simpl; [|done].
    by destruct (String.eqb v ""). }
  rewrite Hfilter. fold parsed. destruct parsed as [d content] eqn:Hparsed.
  by rewrite bind_run.
Qed.

Lemma parseFilter_empty d : parseFilter d "" = (d, ∅).
Proof. done. Qed.

(** C8, amended. [NewHandler] applies the options in order to the initial
    configuration (variable [GO_LOG], level [LevelInfo], no default filter),
    each option overwriting what an earlier one set. The text it parses is the
    value of the environment variable when the variable is set to a non-empty
    value, and the default filter text otherwise; the new handler holds what
    [parseFilter] returns on the configured default level and that text. When
    that text is empty, the handler has the configured default level and no
    overrides. *)
Theorem NewHandler_filter_source (i : Inner) opts σ :
  let cfg := applyOpts opts initialConfig in
  let filter := filterText (environ σ) cfg in
  (exists h σ' hv,
      NewHandler i opts σ = Some (h, σ')
      /\ handlers σ' !! h = Some hv
      /\ inner hv = i
      /\ (defaultLevel hv, readMap σ' (perPackageLevel hv))
         = parseFilter (config_defaultLevel cfg) filter
      /\ (filter = "" ->
          defaultLevel hv = config_defaultLevel cfg
          /\ readMap σ' (perPackageLevel hv) = ∅))
  /\ (forall value,
        environ σ !! config_envVarName cfg = Some value -> value <> "" ->
        filter = value)
  /\ (environ σ !! config_envVarName cfg = None \/
      environ σ !! config_envVarName cfg = Some "" ->
      filter = config_defaultFilter cfg)
  /\ (forall (opts1 : list Opt) (opt : Opt) (c : config),
        applyOpts (opts1 ++ [opt])%list c = opt (applyOpts opts1 c))
  /\ (forall level name text (c : config),
        config_defaultLevel (WithDefaultLevel level c) = level
        /\ config_envVarName (WithEnvVarName name c) = name
        /\ config_defaultFilter (WithDefaultFilter text c) = text).
Proof.
  intros cfg filter. split; [|split; [|split; [|split]]].
  - do 3 eexists. split; [apply NewHandler_run|]. fold cfg filter. simpl.
    rewrite lookup_insert_eq. split; [done|]. split; [done|].
    unfold readMap. simpl. rewrite lookup_insert_eq. simpl.
    split; [by destruct (parseFilter _ _)|].
    intros ->. by rewrite parseFilter_empty.
  - intros value Hv Hne. unfold filter, filterText. rewrite Hv.
    destruct (String.eqb_spec value ""); done.
  - intros [Hv|Hv]; unfold filter, filterText; by rewrite Hv.
  - intros opts1 opt c. unfold applyOpts. by rewrite fold_left_app.
  - done.
Qed.

(** C9. An environment variable set to the empty string and one that is not
    set give the same handler: in both cases [NewHandler] parses the default
    filter text, and returns the same handler in the same stores. *)
Theorem NewHandler_empty_env_is_unset (i : Inner) opts σ :
  let cfg := applyOpts opts initialConfig in
  let name := config_envVarName cfg in
  let σ_empty := setEnviron (<[name := ""]> (environ σ)) σ in
  let σ_unset := setEnviron (delete name (environ σ)) σ in
  exists h σ1 σ2 hv,
    NewHandler i opts σ_empty = Some (h, σ1)
    /\ NewHandler i opts σ_unset = Some (h, σ2)
    /\ handlers σ1 = handlers σ2
    /\ maps σ1 = maps σ2
    /\ sink σ1 = sink σ2
    /\ handlers σ1 !! h = Some hv
    /\ (defaultLevel hv, readMap σ1 (perPackageLevel hv))
       = parseFilter (config_defaultLevel cfg) (config_defaultFilter cfg).
Proof.
  intros cfg name σ_empty σ_unset.
  assert (He : filterText (environ σ_empty) cfg = config_defaultFilter cfg).
  { unfold filterText, σ_empty. simpl. fold name. by rewrite lookup_insert_eq. }
  assert (Hu : filterText (environ σ_unset) cfg = config_defaultFilter cfg).
  { unfold filterText, σ_unset. simpl. fold name. by rewrite lookup_delete_eq. }
  rewrite !NewHandler_run. fold cfg. rewrite He, Hu. simpl.
  do 4 eexists. do 2 (split; [reflexivity|]). simpl.
  do 3 (split; [done|]). rewrite lookup_insert_eq. split; [done|].
  unfold readMap. simpl. rewrite lookup_insert_eq. simpl.
  by destruct (parseFilter _ _).
Qed.

End HandlerProofs.

(** C10. On a handler whose map of overrides is empty, what [Handle] does
    with a record depends on the record's level alone: two records of the same
    level, whatever their program counters and whatever functions those lie
    in, are resolved to the same effective level, and are both dropped or both
    forwarded to the wrapped handler. *)
Theorem Handle_ignores_caller
  {error context Sink Inner : Type} `{!slog.Handler error context Sink Inner}
  (frames1 frames2 : N -> string)
  (h : loc) (hv : @Handler Inner) (σ : @state Sink Inner) (ctx : context)
  (r1 r2 : slog.Record) :
  handlers σ !! h = Some hv ->
  readMap σ (perPackageLevel hv) = ∅ ->
  slog.Record_Level r1 = slog.Record_Level r2 ->
  getLevelForRecord frames1 h r1 σ = Some (defaultLevel hv, σ)
  /\ getLevelForRecord frames2 h r2 σ = Some (defaultLevel hv, σ)
  /\ ((Handler_Handle frames1 h ctx r1 σ = Some (None, σ)
       /\ Handler_Handle frames2 h ctx r2 σ = Some (None, σ))
      \/ (Handler_Handle frames1 h ctx r1 σ
           = match slog.Handle (inner hv) ctx r1 (sink σ) with
             | Some (err, s) => Some (err, setSink s σ)
             | None => None
             end
          /\ Handler_Handle frames2 h ctx r2 σ
             = match slog.Handle (inner hv) ctx r2 (sink σ) with
               | Some (err, s) => Some (err, setSink s σ)
               | None => None
               end)).
Proof.
  intros Hh Hm Hr.
  rewrite !(getLevelForRecord_run _ _ _ _ _ Hh), !(Handler_Handle_run _ _ _ _ _ _ Hh).
  unfold spec_effectiveLevel. rewrite !decide_True by done. rewrite Hr.
  do 2 (split; [done|]). destruct (_ <? _); [by left | by right].
Qed.

(** ** The tests of the repository, and the theorems at them *)

Example NewHandler_test :
  NewHandler 1%positive [] (testStart "error,testpackage=debug")
  = Some (1%positive,
          testState "error,testpackage=debug" slog.LevelError
            {["testpackage" := slog.LevelDebug]}).
Proof. vm_compute. reflexivity. Qed.

Example NewHandler_test_debug :
  NewHandler 1%positive [] (testStart "debug")
  = Some (1%positive, testState "debug" slog.LevelDebug ∅).
Proof. vm_compute. reflexivity. Qed.

(** With the filter ["error,testpackage=debug"], a debug record of the test
    function is dropped and a debug record of [testpackage] reaches the sink. *)
Lemma Handle_drops_or_forwards_witness :
  handlers testFiltered !! 1%positive = Some testFilteredHandler
  /\ Handler_Handle testFrames 1%positive tt
       (testRecord slog.LevelDebug "debug" 1) testFiltered
     = Some (None, testFiltered)
  /\ Handler_Handle testFrames 1%positive tt
       (testRecord slog.LevelDebug "testpackage debug" 2) testFiltered
     = Some (None, setSink {[1%positive := ["testpackage debug"]]} testFiltered).
Proof.
  assert (Hh : handlers testFiltered !! 1%positive = Some testFilteredHandler)
    by (vm_compute; reflexivity).
  split; [exact Hh|]. split.
  - destruct (Handle_drops_or_forwards testFrames _ _ _ tt
                (testRecord slog.LevelDebug "debug" 1) Hh)
      as (level & Hlevel & Hdrop & _).
    apply Hdrop.
    assert (level = slog.LevelError) as ->.
    { apply (inj Some). change (Some level) with (fst <$> Some (level, testFiltered)).
      rewrite <- Hlevel. vm_compute. reflexivity. }
    vm_compute. reflexivity.
  - destruct (Handle_drops_or_forwards testFrames _ _ _ tt
                (testRecord slog.LevelDebug "testpackage debug" 2) Hh)
      as (level & Hlevel & _ & Hforward).
    rewrite Hforward; [vm_compute; reflexivity|].
    assert (level = slog.LevelDebug) as ->.
    { apply (inj Some). change (Some level) with (fst <$> Some (level, testFiltered)).
      rewrite <- Hlevel. vm_compute. reflexivity. }
    vm_compute. discriminate.
Defined.

(** With the filter ["error,testpackage=debug"], the effective level of a
    record of [testpackage] is the override, and that of a record of the test
    function, which has no override, is the default. *)
Lemma getLevelForRecord_effective_witness :
  handlers testFiltered !! 1%positive = Some testFilteredHandler
  /\ getLevelForRecord testFrames 1%positive
       (testRecord slog.LevelInfo "testpackage info" 2) testFiltered
     = Some (slog.LevelDebug, testFiltered)
  /\ getLevelForRecord testFrames 1%positive
       (testRecord slog.LevelInfo "info" 1) testFiltered
     = Some (slog.LevelError, testFiltered).
Proof.
  assert (Hh : handlers testFiltered !! 1%positive = Some testFilteredHandler)
    by (vm_compute; reflexivity).
  assert (Hm : readMap testFiltered (perPackageLevel testFilteredHandler) <> ∅)
    by (vm_compute; discriminate).
  split; [exact Hh|]. split.
  - destruct (getLevelForRecord_effective testFrames _ _ _ tt
                (testRecord slog.LevelInfo "testpackage info" 2) Hh)
      as (level & Hlevel & _ & _ & Hover).
    destruct (Hover Hm) as (_ & Heq & _). rewrite Hlevel, Heq.
    vm_compute. reflexivity.
  - destruct (getLevelForRecord_effective testFrames _ _ _ tt
                (testRecord slog.LevelInfo "info" 1) Hh)
      as (level & Hlevel & _ & _ & Hover).
    destruct (Hover Hm) as (_ & Heq & _). rewrite Hlevel, Heq.
    vm_compute. reflexivity.
Defined.

(** With the filter ["warn"] there are no overrides: [Enabled] is the
    comparison with the default level. With ["error,testpackage=debug"] there
    is one: [Enabled] is true even at the debug level. *)
Lemma Enabled_fast_path_witness :
  handlers testPlain !! 1%positive = Some testPlainHandler
  /\ readMap testPlain (perPackageLevel testPlainHandler) = ∅
  /\ Handler_Enabled 1%positive tt slog.LevelInfo testPlain = Some (false, testPlain)
  /\ handlers testFiltered !! 1%positive = Some testFilteredHandler
  /\ readMap testFiltered (perPackageLevel testFilteredHandler) <> ∅
  /\ Handler_Enabled 1%positive tt slog.LevelDebug testFiltered = Some (true, testFiltered).
Proof.
  assert (Hp : handlers testPlain !! 1%positive = Some testPlainHandler)
    by (vm_compute; reflexivity).
  assert (Hpm : readMap testPlain (perPackageLevel testPlainHandler) = ∅)
    by (vm_compute; reflexivity).
  assert (Hf : handlers testFiltered !! 1%positive = Some testFilteredHandler)
    by (vm_compute; reflexivity).
  assert (Hfm : readMap testFiltered (perPackageLevel testFilteredHandler) <> ∅)
    by (vm_compute; discriminate).
  split; [exact Hp|]. split; [exact Hpm|]. split.
  - destruct (Enabled_fast_path testFrames _ _ _ tt slog.LevelInfo Hp) as [Hempty _].
    destruct (Hempty Hpm) as (-> & _). reflexivity.
  - split; [exact Hf|]. split; [exact Hfm|].
    destruct (Enabled_fast_path testFrames _ _ _ tt slog.LevelDebug Hf) as [_ Hfull].
    exact (Hfull Hfm).
Defined.

(** [WithAttrs] and [WithGroup] on the handler of the test: the handler at
    location [2] is new, and shares the map at location [1]. *)
Lemma WithAttrs_WithGroup_derive_witness :
  handlers testFiltered !! 1%positive = Some testFilteredHandler
  /\ derivedFrom testFrames 1%positive testFilteredHandler testFiltered
       1%positive {[1%positive := []]}
       (Handler_WithAttrs 1%positive [slog.mkAttr "key" "value"] testFiltered)
  /\ derivedFrom testFrames 1%positive testFilteredHandler testFiltered
       1%positive {[1%positive := []]}
       (Handler_WithGroup 1%positive "group" testFiltered).
Proof.
  assert (Hh : handlers testFiltered !! 1%positive = Some testFilteredHandler)
    by (vm_compute; reflexivity).
  split; [exact Hh|].
  destruct (WithAttrs_WithGroup_derive testFrames _ _ _
              [slog.mkAttr "key" "value"] "group" Hh) as [Hattrs Hgroup].
  split; [apply Hattrs | apply Hgroup]; reflexivity.
Defined.

(** With the filter ["warn"], two info records are both dropped, whether
    logged from the test function or from [testpackage], and whatever the
    table of function names. *)
Lemma Handle_ignores_caller_witness :
  handlers testPlain !! 1%positive = Some testPlainHandler
  /\ readMap testPlain (perPackageLevel testPlainHandler) = ∅
  /\ getLevelForRecord testFrames 1%positive (testRecord slog.LevelInfo "info" 1) testPlain
     = Some (slog.LevelWarn, testPlain)
  /\ getLevelForRecord (fun _ => "main.main") 1%positive
       (testRecord slog.LevelInfo "testpackage info" 2) testPlain
     = Some (slog.LevelWarn, testPlain).
Proof.
  assert (Hp : handlers testPlain !! 1%positive = Some testPlainHandler)
    by (vm_compute; reflexivity).
  assert (Hpm : readMap testPlain (perPackageLevel testPlainHandler) = ∅)
    by (vm_compute; reflexivity).
  split; [exact Hp|]. split; [exact Hpm|].
  destruct (Handle_ignores_caller testFrames (fun _ => "main.main") _ _ _ tt
              (testRecord slog.LevelInfo "info" 1)
              (testRecord slog.LevelInfo "testpackage info" 2) Hp Hpm eq_refl)
    as (H1 & H2 & _).
  split; [exact H1 | exact H2].
Defined.

(** C8, as stated, fails when the environment variable is set to the empty
    string: the text that is parsed is then the default filter text, not the
    variable's value. With [GO_LOG] set to the empty string and the default
    filter ["debug"], the handler's level is [LevelDebug], where the empty
    text would have given [LevelInfo]. *)
Lemma NewHandler_filter_source_counterexample :
  environ (testStart "") !! config_envVarName (applyOpts [WithDefaultFilter "debug"] initialConfig)
  = Some ""
  /\ exists σ' hv,
      NewHandler 1%positive [WithDefaultFilter "debug"] (testStart "") = Some (1%positive, σ')
      /\ handlers σ' !! 1%positive = Some hv
      /\ defaultLevel hv = slog.LevelDebug
      /\ (defaultLevel hv, readMap σ' (perPackageLevel hv))
         <> parseFilter
              (config_defaultLevel (applyOpts [WithDefaultFilter "debug"] initialConfig))
              (spec_filterText (environ (testStart ""))
                 (applyOpts [WithDefaultFilter "debug"] initialConfig)).
Proof.
  split; [vm_compute; reflexivity|].
  exists (testState "" slog.LevelDebug ∅),
    {| inner := 1%positive; defaultLevel := slog.LevelDebug; perPackageLevel := 1%positive |}.
  split; [vm_compute; reflexivity|]. split; [vm_compute; reflexivity|].
  split; [reflexivity|]. vm_compute. discriminate.
Qed.

(** *** The tests [TestDefaultLevel] and [TestPackageFilter] *)

Example TestDefaultLevel_debug :
  (h ← NewHandler 1%positive []; testLogs testFrames h) (testStart "debug")
  ≫= (fun r => sink r.2 !! 1%positive)
  = Some ["debug"; "info"; "warn"; "error"].
Proof. vm_compute. reflexivity. Qed.

Example TestDefaultLevel_warn :
  (h ← NewHandler 1%positive []; testLogs testFrames h) (testStart "warn")
  ≫= (fun r => sink r.2 !! 1%positive)
  = Some ["warn"; "error"].
Proof. vm_compute. reflexivity. Qed.

Example TestPackageFilter_testpackage_error :
  (h ← NewHandler 1%positive [];
   _ ← testLogs testFrames h;
   testpackageLogs testFrames h) (testStart "testpackage=error")
  ≫= (fun r => sink r.2 !! 1%positive)
  = Some ["info"; "warn"; "error"; "testpackage error"].
Proof. vm_compute. reflexivity. Qed.

Example TestPackageFilter_slog_env_test_debug :
  (h ← NewHandler 1%positive [];
   _ ← testLogs testFrames h;
   testpackageLogs testFrames h) (testStart "slog-env_test=debug,testpackage=error")
  ≫= (fun r => sink r.2 !! 1%positive)
  = Some ["debug"; "info"; "warn"; "error"; "testpackage error"].
Proof. vm_compute. reflexivity. Qed.

Example TestPackageFilter_error_testpackage_debug :
  (h ← NewHandler 1%positive [];
   _ ← testLogs testFrames h;
   testpackageLogs testFrames h) (testStart "error,testpackage=debug")
  ≫= (fun r => sink r.2 !! 1%positive)
  = Some ["error"; "testpackage debug"; "testpackage info"; "testpackage warn";
          "testpackage error"].
Proof. vm_compute. reflexivity. Qed.

(** * Further properties of the code *)

(** ** [parseFilter] on arbitrary filters *)

Section ParserAll.

Implicit Types (d : slog.Level) (m : gmap string slog.Level) (ts : list term).

Lemma lastDecodedOverride_named k ts :
  is_Some (lastDecodedOverride k ts) -> k ∈ modulesOf ts.
Proof.
  induction ts as [|t ts IH]; simpl; [by intros [? ?]|].
  destruct (lastDecodedOverride k ts) as [v|].
  - intros _. destruct t; [|apply list_elem_of_further]; apply IH; eauto.
  - destruct t as [tok|mo tok]; [by intros [? ?]|].
    destruct (String.eqb_spec mo k) as [->|_]; [|by intros [? ?]].
    intros _. apply list_elem_of_here.
Qed.

Lemma fold_applyTerm_all ts :
  forall d m,
    fst (fold_left applyTerm ts (d, m)) = default d (lastDecodedBare ts)
    /\ forall k,
        snd (fold_left applyTerm ts (d, m)) !! k
        = match lastDecodedOverride k ts with
          | Some v => Some v
          | None => if decide (k ∈ modulesOf ts) then Some (mapIndex m k) else m !! k
          end.
Proof.
  induction ts as [|t ts IH]; intros d m;
    cbn [fold_left lastDecodedBare lastDecodedOverride modulesOf].
  - split; [done|]. intros k. rewrite decide_False; [done | apply not_elem_of_nil].
  - destruct t as [tok|mo tok];
      cbn [applyTerm fst snd lastDecodedBare lastDecodedOverride modulesOf].
    + destruct (IH (default d (levelToken tok)) m) as [IHd IHm]. split.
      * rewrite IHd. by destruct (lastDecodedBare ts).
      * intros k. rewrite IHm. by destruct (lastDecodedOverride k ts).
    + destruct (IH d (<[mo := default (mapIndex m mo) (levelToken tok)]> m))
        as [IHd IHm]. split.
      * rewrite IHd. by destruct (lastDecodedBare ts).
      * intros k. rewrite IHm. destruct (lastDecodedOverride k ts) as [v|]; [done|].
        rewrite mapIndex_insert.
        destruct (String.eqb_spec mo k) as [->|Hne].
        -- rewrite lookup_insert_eq, (decide_True (P := k = k)) by done.
           rewrite (decide_True (P := k ∈ k :: modulesOf ts)) by apply list_elem_of_here.
           destruct (levelToken tok); simpl; by case_decide.
        -- rewrite lookup_insert_ne, (decide_False (P := mo = k)) by done.
           destruct (decide (k ∈ modulesOf ts)) as [Hin|Hin].
           ++ rewrite decide_True; [done | by apply list_elem_of_further].
           ++ rewrite decide_False; [done|].
              intros [?|?]%elem_of_cons; [by subst | done].
Qed.

Lemma modulesOf_app ts1 ts2 : modulesOf (ts1 ++ ts2)%list = (modulesOf ts1 ++ modulesOf ts2)%list.
Proof.
  induction ts1 as [|t ts1 IH]; simpl; [done|]. destruct t; simpl; by rewrite IH.
Qed.

Lemma lastDecodedBare_app ts1 ts2 :
  lastDecodedBare (ts1 ++ ts2)%list
  = match lastDecodedBare ts2 with
    | Some v => Some v
    | None => lastDecodedBare ts1
    end.
Proof.
  induction ts1 as [|t ts1 IH]; simpl.
  - by destruct (lastDecodedBare ts2).
  - rewrite IH. by destruct (lastDecodedBare ts2).
Qed.

Lemma lastDecodedOverride_app k ts1 ts2 :
  lastDecodedOverride k (ts1 ++ ts2)%list
  = match lastDecodedOverride k ts2 with
    | Some v => Some v
    | None => lastDecodedOverride k ts1
    end.
Proof.
  induction ts1 as [|t ts1 IH]; simpl.
  - by destruct (lastDecodedOverride k ts2).
  - rewrite IH. by destruct (lastDecodedOverride k ts2).
Qed.

Lemma Split_app_sep s1 s2 sep :
  Split (s1 ++ String sep s2) sep = (Split s1 sep ++ Split s2 sep)%list.
Proof.
  induction s1 as [|a s1 IH]; simpl.
  - by rewrite Ascii.eqb_refl.
  - rewrite IH. destruct (Ascii.eqb a sep); [done|].
    pose proof (Split_nonempty s1 sep). by destruct (Split s1 sep).
Qed.

Lemma occurs_Split c sep s :
  Ascii.eqb c sep = false -> occurs c s = existsb (occurs c) (Split s sep).
Proof.
  intros Hc. induction s as [|a s IH]; simpl; [done|].
  destruct (Ascii.eqb_spec a sep) as [->|Hne]; simpl.
  - rewrite Ascii.eqb_sym, Hc. simpl. exact IH.
  - rewrite IH. pose proof (Split_nonempty s sep).
    destruct (Split s sep) as [|w ws]; [done|]. simpl. by rewrite orb_assoc.
Qed.

Lemma Split_piece_no_sep s sep p : p ∈ Split s sep -> occurs sep p = false.
Proof.
  revert p. induction s as [|a s IH]; simpl; intros p Hp.
  - apply list_elem_of_singleton in Hp as ->. done.
  - destruct (Ascii.eqb a sep) eqn:Ha.
    + apply elem_of_cons in Hp as [->|Hp]; [done | by apply IH].
    + pose proof (Split_nonempty s sep). destruct (Split s sep) as [|w ws]; [done|].
      apply elem_of_cons in Hp as [->|Hp].
      * simpl. rewrite Ha. apply IH, list_elem_of_here.
      * by apply IH, list_elem_of_further.
Qed.

Lemma occurs_spec_before c s : occurs c (spec_before c s) = false.
Proof.
  induction s as [|a s IH]; simpl; [done|].
  destruct (Ascii.eqb a c) eqn:Ha; simpl; [done|]. by rewrite Ha.
Qed.

Lemma occurs_spec_before_other c c' s :
  occurs c' s = false -> occurs c' (spec_before c s) = false.
Proof.
  induction s as [|a s IH]; simpl; [done|].
  intros [Ha Hs]%orb_false_elim. destruct (Ascii.eqb a c); simpl; [done|].
  by rewrite Ha, IH.
Qed.

Lemma termOf_Override t k tok :
  termOf t = Override k tok -> k = spec_before "=" t /\ occurs "=" t = true.
Proof.
  unfold termOf. destruct (Cut_before t "=") as [H1 H2].
  destruct (Cut t "=") as [[first second] ok]. simpl in *.
  destruct ok; [|done]. intros [= <- _]. by subst.
Qed.

Lemma termOf_Bare t tok : termOf t = Bare tok -> occurs "=" t = false.
Proof.
  unfold termOf. destruct (Cut_before t "=") as [_ H2].
  destruct (Cut t "=") as [[first second] ok]. simpl in *.
  destruct ok; [done|]. by intros _.
Qed.

Lemma modulesOf_terms_elem k l :
  k ∈ modulesOf (map termOf l) ->
  exists t, t ∈ l /\ k = spec_before "=" t.
Proof.
  induction l as [|t l IH]; simpl; [by intros ?%not_elem_of_nil|].
  destruct (termOf t) as [tok|mo tok] eqn:Ht.
  - intros Hk. destruct (IH Hk) as (t' & Ht' & ->).
    exists t'. split; [by apply list_elem_of_further | done].
  - intros [->|Hk]%elem_of_cons.
    + exists t. split; [apply list_elem_of_here|]. by apply termOf_Override in Ht as [-> _].
    + destruct (IH Hk) as (t' & Ht' & ->).
      exists t'. split; [by apply list_elem_of_further | done].
Qed.

Lemma modulesOf_terms_nil l :
  modulesOf (map termOf l) = [] <-> existsb (occurs "=") l = false.
Proof.
  induction l as [|t l IH]; simpl; [done|].
  destruct (termOf t) as [tok|mo tok] eqn:Ht.
  - apply termOf_Bare in Ht. by rewrite Ht.
  - apply termOf_Override in Ht as [_ Ht]. rewrite Ht. simpl. split; done.
Qed.

End ParserAll.

(** X1. [parseFilter] on any filter, decodable or not. The default level it
    returns is the level of the last bare term whose text decodes, and the
    default it was handed when there is none. A module has an entry exactly
    when some term names it; the entry is the level of the module's last term
    whose text decodes, and the zero level when none of its terms decodes. *)
Theorem parseFilter_result (d : slog.Level) (filter : string) :
  fst (parseFilter d filter) = default d (lastDecodedBare (terms filter))
  /\ forall module : string,
      snd (parseFilter d filter) !! module
      = match lastDecodedOverride module (terms filter) with
        | Some v => Some v
        | None =>
            if decide (module ∈ modulesOf (terms filter))
            then Some slog.zeroLevel else None
        end.
Proof.
  rewrite parseFilter_terms.
  destruct (fold_applyTerm_all (terms filter) d ∅) as [Hd Hm].
  split; [exact Hd|]. intros module. rewrite Hm.
  destruct (lastDecodedOverride module (terms filter)); [done|].
  case_decide; [|apply lookup_empty].
  unfold mapIndex. by rewrite lookup_empty.
Qed.

Lemma parseFilter_lookup_named (d : slog.Level) (filter module : string) :
  is_Some (snd (parseFilter d filter) !! module) <-> module ∈ modulesOf (terms filter).
Proof.
  rewrite parseFilter_terms.
  destruct (fold_applyTerm_all (terms filter) d ∅) as [_ Hm]. rewrite Hm.
  destruct (lastDecodedOverride module (terms filter)) as [v|] eqn:Hl.
  - split; [intros _ | eauto]. apply lastDecodedOverride_named. rewrite Hl. eauto.
  - case_decide; split; eauto; try done.
    rewrite lookup_empty. by intros [? ?].
Qed.

Lemma parseFilter_dom (d : slog.Level) (filter : string) :
  dom (snd (parseFilter d filter)) = list_to_set (modulesOf (terms filter)).
Proof.
  apply set_eq. intros k.
  rewrite elem_of_dom, elem_of_list_to_set. apply parseFilter_lookup_named.
Qed.

(** X2. The keys of the map [parseFilter] returns are exactly the modules the
    filter's terms name (what precedes the first [=] of a term that has one),
    whether or not the level text of those terms decodes; and no key contains
    a comma or an equals sign. *)
Theorem parseFilter_keys (d : slog.Level) (filter : string) :
  dom (snd (parseFilter d filter)) = list_to_set (modulesOf (terms filter))
  /\ forall module : string,
      is_Some (snd (parseFilter d filter) !! module) ->
      occurs "," module = false /\ occurs "=" module = false.
Proof.
  split; [apply parseFilter_dom|].
  intros module Hin. apply parseFilter_lookup_named in Hin.
    apply modulesOf_terms_elem in Hin as (t & Ht & ->).
    split; [|apply occurs_spec_before].
    apply occurs_spec_before_other. by apply (Split_piece_no_sep filter).
Qed.

Lemma parseFilter_empty_modules (d : slog.Level) (filter : string) :
  snd (parseFilter d filter) = ∅ <-> modulesOf (terms filter) = [].
Proof.
  rewrite <- dom_empty_iff_L, parseFilter_dom. split.
  - intros Hset. destruct (modulesOf (terms filter)) as [|k l]; [done|].
    exfalso. apply (not_elem_of_empty (C := gset string) k).
    rewrite <- Hset. rewrite elem_of_list_to_set. apply list_elem_of_here.
  - by intros ->.
Qed.

Lemma terms_no_modules (filter : string) :
  modulesOf (terms filter) = [] <-> occurs "=" filter = false.
Proof.
  rewrite (occurs_Split "=" "," filter) by done.
  unfold terms. apply modulesOf_terms_nil.
Qed.

(** X3. The map [parseFilter] returns is empty exactly when the filter text
    contains no equals sign: any term with one, even with an unknown level or
    an empty module, leaves an entry. *)
Theorem parseFilter_no_overrides (d : slog.Level) (filter : string) :
  snd (parseFilter d filter) = ∅ <-> occurs "=" filter = false.
Proof.
  rewrite parseFilter_empty_modules. apply terms_no_modules.
Qed.

(** X4. Parsing two filters joined by a comma is parsing the second from the
    result of the first: the default level is the second's on the first's
    default, and a module's entry is the level of its last decodable term of
    the second filter, what the first filter left (read as [m[k]]) when the
    second names the module without a decodable level, and the first filter's
    entry when the second does not name it. *)
Theorem parseFilter_append (d : slog.Level) (f1 f2 : string) :
  parseFilter d (f1 ++ "," ++ f2)
  = fold_left parseFilterTerm (Split f2 ",") (parseFilter d f1)
  /\ fst (parseFilter d (f1 ++ "," ++ f2))
     = fst (parseFilter (fst (parseFilter d f1)) f2)
  /\ forall module : string,
      snd (parseFilter d (f1 ++ "," ++ f2)) !! module
      = match lastDecodedOverride module (terms f2) with
        | Some v => Some v
        | None =>
            if decide (module ∈ modulesOf (terms f2))
            then Some (mapIndex (snd (parseFilter d f1)) module)
            else snd (parseFilter d f1) !! module
        end.
Proof.
  assert (Happ : parseFilter d (f1 ++ "," ++ f2)
                 = fold_left parseFilterTerm (Split f2 ",") (parseFilter d f1)).
  { unfold parseFilter. change ("," ++ f2) with (String "," f2).
    by rewrite Split_app_sep, fold_left_app. }
  split; [exact Happ|]. rewrite Happ, fold_parseFilterTerm. fold (terms f2).
  destruct (parseFilter d f1) as [d1 m1]. simpl.
  destruct (fold_applyTerm_all (terms f2) d1 m1) as [Hd Hm].
  split; [|exact Hm].
  rewrite Hd, parseFilter_terms.
  by destruct (fold_applyTerm_all (terms f2) d1 ∅) as [-> _].
Qed.

(** X5. Repeating a filter changes nothing: a filter followed by a comma and
    the same filter again parses to the same default level and the same map. *)
Theorem parseFilter_repeat (d : slog.Level) (filter : string) :
  parseFilter d (filter ++ "," ++ filter) = parseFilter d filter.
Proof.
  assert (Hterms : terms (filter ++ "," ++ filter) = (terms filter ++ terms filter)%list).
  { unfold terms. change ("," ++ filter) with (String "," filter).
    by rewrite Split_app_sep, map_app. }
  rewrite !parseFilter_terms, Hterms.
  destruct (fold_applyTerm_all (terms filter ++ terms filter) d ∅) as [Hd2 Hm2].
  destruct (fold_applyTerm_all (terms filter) d ∅) as [Hd1 Hm1].
  destruct (fold_left applyTerm (terms filter ++ terms filter) (d, ∅)) as [d2 m2].
  destruct (fold_left applyTerm (terms filter) (d, ∅)) as [d1 m1].
  simpl in *. f_equal.
  - rewrite Hd2, Hd1, lastDecodedBare_app. by destruct (lastDecodedBare (terms filter)).
  - apply map_eq. intros k. rewrite Hm2, Hm1, lastDecodedOverride_app, modulesOf_app.
    destruct (lastDecodedOverride k (terms filter)); [done|].
    destruct (decide (k ∈ modulesOf (terms filter))) as [Hin|Hin].
    + rewrite decide_True; [done | apply elem_of_app; by left].
    + rewrite decide_False; [done|]. by intros [?|?]%elem_of_app.
Qed.

(** X6. The default level handed to [parseFilter] never reaches the map of
    overrides (a module whose level text does not decode gets the zero level,
    not the default). It is what [parseFilter] returns as the default level
    exactly when no bare term decodes; as soon as one does, the whole result
    is the same for every default handed in. *)
Theorem parseFilter_default_level (d1 d2 : slog.Level) (filter : string) :
  snd (parseFilter d1 filter) = snd (parseFilter d2 filter)
  /\ (lastDecodedBare (terms filter) = None -> fst (parseFilter d1 filter) = d1)
  /\ (is_Some (lastDecodedBare (terms filter)) ->
      parseFilter d1 filter = parseFilter d2 filter).
Proof.
  assert (Hsnd : snd (parseFilter d1 filter) = snd (parseFilter d2 filter)).
  { apply map_eq. intros k. rewrite !parseFilter_terms.
    destruct (fold_applyTerm_all (terms filter) d1 ∅) as [_ ->].
    by destruct (fold_applyTerm_all (terms filter) d2 ∅) as [_ ->]. }
  split; [exact Hsnd|]. split.
  - intros Hnone. rewrite parseFilter_terms.
    destruct (fold_applyTerm_all (terms filter) d1 ∅) as [-> _]. by rewrite Hnone.
  - intros [v Hv]. apply injective_projections; [|exact Hsnd].
    rewrite !parseFilter_terms.
    destruct (fold_applyTerm_all (terms filter) d1 ∅) as [-> _].
    destruct (fold_applyTerm_all (terms filter) d2 ∅) as [-> _].
    by rewrite Hv.
Qed.

(** ** [parsePackage] on arbitrary symbols *)

Lemma occurs_spec_lastSegment s : occurs "/" (spec_lastSegment s) = false.
Proof.
  induction s as [|c s IH]; simpl; [done|].
  destruct (occurs "/" s) eqn:Hs; [exact IH|].
  destruct (Ascii.eqb c "/") eqn:Hc; [exact Hs|].
  simpl. by rewrite Hc, Hs.
Qed.

Lemma spec_lastSegment_app dir s :
  occurs "/" s = false -> spec_lastSegment (dir ++ String "/" s) = s.
Proof.
  intros Hs. induction dir as [|c dir IH]; simpl.
  - by rewrite Hs.
  - rewrite occurs_false_app. simpl. by rewrite orb_true_r.
Qed.

Lemma spec_before_app c s rest :
  occurs c s = false -> spec_before c (s ++ String c rest) = s.
Proof.
  induction s as [|a s IH]; simpl.
  - by rewrite Ascii.eqb_refl.
  - intros [Ha Hs]%orb_false_elim. by rewrite Ha, IH.
Qed.

(** X7. The package [parsePackage] returns never contains a slash or a dot,
    whatever the symbol, and [parsePackage] reports success exactly when what
    follows the symbol's last slash contains a dot. *)
Theorem parsePackage_bare (function : string) :
  occurs "/" (fst (parsePackage function)) = false
  /\ occurs "." (fst (parsePackage function)) = false
  /\ snd (parsePackage function) = occurs "." (spec_lastSegment function).
Proof.
  rewrite parsePackage_spec. unfold spec_module.
  pose proof (occurs_spec_lastSegment function) as Hseg.
  destruct (occurs "." (spec_lastSegment function)) eqn:Hdot; simpl.
  - split; [by apply occurs_spec_before_other|].
    split; [apply occurs_spec_before | done].
  - done.
Qed.

(** X8. Building a symbol and parsing it back: for a package name without
    slash and dot and a function part without slash, [parsePackage] returns
    the package from [pkg.rest] and from [dir/pkg.rest], whatever the import
    path [dir] in front, and whatever further dots the function part has. *)
Theorem parsePackage_qualified (dir pkg rest : string) :
  occurs "/" pkg = false ->
  occurs "." pkg = false ->
  occurs "/" rest = false ->
  parsePackage (pkg ++ "." ++ rest) = (pkg, true)
  /\ parsePackage (dir ++ "/" ++ pkg ++ "." ++ rest) = (pkg, true).
Proof.
  intros Hslash Hdot Hrest.
  assert (Hseg : occurs "/" (pkg ++ String "." rest) = false).
  { rewrite occurs_false_app. simpl. by rewrite Hslash, Hrest. }
  assert (Hmod : forall s, spec_lastSegment s = pkg ++ String "." rest ->
                           parsePackage s = (pkg, true)).
  { intros s Hs. rewrite parsePackage_spec. unfold spec_module. rewrite Hs.
    rewrite occurs_false_app. simpl. rewrite orb_true_r.
    by rewrite spec_before_app. }
  split; apply Hmod.
  - by apply spec_lastSegment_id.
  - change ("/" ++ pkg ++ "." ++ rest) with (String "/" (pkg ++ String "." rest)).
    by apply spec_lastSegment_app.
Qed.

(** The symbol of [testpackage.LogSomething]. *)
Lemma parsePackage_qualified_witness :
  occurs "/" "testpackage" = false
  /\ occurs "." "testpackage" = false
  /\ occurs "/" "LogSomething" = false
  /\ parsePackage "github.com/cbrewster/slog-env/internal/testpackage.LogSomething"
     = ("testpackage", true).
Proof.
  assert (H1 : occurs "/" "testpackage" = false) by (vm_compute; reflexivity).
  assert (H2 : occurs "." "testpackage" = false) by (vm_compute; reflexivity).
  assert (H3 : occurs "/" "LogSomething" = false) by (vm_compute; reflexivity).
  split; [exact H1|]. split; [exact H2|]. split; [exact H3|].
  exact (proj2 (parsePackage_qualified "github.com/cbrewster/slog-env/internal"
                  "testpackage" "LogSomething" H1 H2 H3)).
Defined.

(** ** The handler, further *)

Section HandlerMore.

Context {error context Sink Inner : Type}.
Context `{!slog.Handler error context Sink Inner}.
Variable frameFunction : N -> string.

Implicit Types (h : loc) (hv : @Handler Inner) (σ : @state Sink Inner)
  (ctx : context) (record : slog.Record) (level : slog.Level).

Lemma spec_module_bare symbol module :
  spec_module symbol = Some module ->
  occurs "/" module = false /\ occurs "." module = false.
Proof.
  unfold spec_module. destruct (occurs "." (spec_lastSegment symbol)); [|done].
  intros [= <-]. split; [|apply occurs_spec_before].
  apply occurs_spec_before_other, occurs_spec_lastSegment.
Qed.

Lemma spec_effectiveLevel_delete d (m : gmap string slog.Level) record k :
  occurs "/" k || occurs "." k = true ->
  spec_effectiveLevel frameFunction d (delete k m) record
  = spec_effectiveLevel frameFunction d m record.
Proof.
  intros Hk. unfold spec_effectiveLevel.
  destruct (spec_module (frameFunction (slog.Record_PC record))) as [module|] eqn:Hmod.
  - apply spec_module_bare in Hmod as [Hslash Hdot].
    assert (Hne : k <> module).
    { intros ->. rewrite Hslash, Hdot in Hk. done. }
    destruct (decide (delete k m = ∅)) as [Hd|Hd], (decide (m = ∅)) as [Hm|Hm].
    + done.
    + rewrite <- (lookup_delete_ne m k module) by done. by rewrite Hd, lookup_empty.
    + exfalso. apply Hd. rewrite Hm. apply delete_empty.
    + by rewrite lookup_delete_ne.
  - by repeat case_decide.
Qed.

(** X9. An override whose key contains a slash or a dot is dead: no record
    is ever resolved to it. Removing the key from the handler's map changes
    the effective level of no record, also when it was the only key. *)
Theorem getLevelForRecord_dead_override h hv σ record (k : string) :
  handlers σ !! h = Some hv ->
  occurs "/" k || occurs "." k = true ->
  exists level,
    getLevelForRecord frameFunction h record σ = Some (level, σ)
    /\ getLevelForRecord frameFunction h record
         (setMaps (<[perPackageLevel hv := delete k (readMap σ (perPackageLevel hv))]>
                     (maps σ)) σ)
       = Some (level,
               setMaps (<[perPackageLevel hv := delete k (readMap σ (perPackageLevel hv))]>
                          (maps σ)) σ).
Proof.
  intros Hh Hk. eexists. split; [by apply getLevelForRecord_run|].
  erewrite getLevelForRecord_run by exact Hh.
  unfold readMap at 1. simpl. rewrite lookup_insert_eq. simpl.
  by rewrite spec_effectiveLevel_delete.
Qed.

(** X10. Filtering is stateless. Whatever [Handle] returns, it has changed
    no handler and no map, so every handler resolves for every record the
    level it resolved before the call. *)
Theorem Handle_keeps_configuration h hv σ ctx record (e : option error) σ' :
  handlers σ !! h = Some hv ->
  Handler_Handle frameFunction h ctx record σ = Some (e, σ') ->
  handlers σ' = handlers σ
  /\ maps σ' = maps σ
  /\ forall p hp r,
      handlers σ !! p = Some hp ->
      exists level,
        getLevelForRecord frameFunction p r σ = Some (level, σ)
        /\ getLevelForRecord frameFunction p r σ' = Some (level, σ').
Proof.
  intros Hh Hrun. rewrite (Handler_Handle_run _ _ _ _ _ _ Hh) in Hrun.
  assert (Hframe : handlers σ' = handlers σ /\ maps σ' = maps σ).
  { destruct (_ <? _); [by injection Hrun as _ <-|].
    destruct (slog.Handle (inner hv) ctx record (sink σ)) as [[err s]|]; [|done].
    by injection Hrun as _ <-. }
  destruct Hframe as (Hhs & Hms). do 2 (split; [done|]).
  intros p hp r Hp. eexists. split; [by apply getLevelForRecord_run|].
  erewrite getLevelForRecord_run by (rewrite Hhs; exact Hp).
  unfold readMap. by rewrite Hms.
Qed.

(** X11. [Enabled] is a sound gate in every state of the handler: when it
    returns false for a level, [Handle] drops every record of that level. *)
Theorem Enabled_false_drops h hv σ ctx level record :
  handlers σ !! h = Some hv ->
  Handler_Enabled h ctx level σ = Some (false, σ) ->
  slog.Record_Level record = level ->
  Handler_Handle frameFunction h ctx record σ = Some (None, σ).
Proof.
  intros Hh Hen Hr. rewrite (Handler_Enabled_run _ _ _ _ _ Hh) in Hen.
  rewrite (Handler_Handle_run _ _ _ _ _ _ Hh). unfold spec_effectiveLevel.
  case_bool_decide as Hm; [|done]. rewrite decide_True by done.
  injection Hen as Hen. rewrite Z.geb_leb in Hen. apply Z.leb_gt in Hen.
  rewrite Hr. apply Z.ltb_lt in Hen. by rewrite Hen.
Qed.

Lemma mapRefs_held σ p hp :
  handlers σ !! p = Some hp -> perPackageLevel hp ∈ mapRefs σ.
Proof.
  intros Hp. unfold mapRefs. apply elem_of_map_img. exists p.
  by rewrite lookup_fmap, Hp.
Qed.

Lemma fresh_map σ :
  maps σ !! fresh (dom (maps σ) ∪ mapRefs σ) = None
  /\ fresh (dom (maps σ) ∪ mapRefs σ) ∉ mapRefs σ.
Proof.
  pose proof (is_fresh (dom (maps σ) ∪ mapRefs σ)) as Hfresh.
  apply not_elem_of_union in Hfresh as [Hdom Hrefs].
  split; [by apply not_elem_of_dom | done].
Qed.

(** X12. When [NewHandler] returns, the handler it returns did not exist,
    nor did the map the handler holds, and no handler that existed holds that
    map; every handler and every map that existed, the environment and the
    state of the wrapped handler (which is not called) are as they were. *)
Theorem NewHandler_fresh (i : Inner) (opts : list Opt) σ h σ' :
  NewHandler i opts σ = Some (h, σ') ->
  exists hv,
    handlers σ !! h = None
    /\ handlers σ' !! h = Some hv
    /\ inner hv = i
    /\ maps σ !! perPackageLevel hv = None
    /\ (forall p hp, handlers σ !! p = Some hp ->
                     handlers σ' !! p = Some hp
                     /\ perPackageLevel hp <> perPackageLevel hv)
    /\ (forall l, l <> perPackageLevel hv -> maps σ' !! l = maps σ !! l)
    /\ (forall p, p <> h -> handlers σ' !! p = handlers σ !! p)
    /\ environ σ' = environ σ
    /\ sink σ' = sink σ.
Proof.
  rewrite NewHandler_run. intros [= <- <-].
  pose proof (fresh_handler σ) as Hfh. destruct (fresh_map σ) as [Hfm Hrefs].
  eexists. split; [done|]. simpl. split; [by rewrite lookup_insert_eq|]. simpl.
  split; [done|]. split; [done|]. split; [|split; [|split]].
  - intros p hp Hp. split.
    + rewrite lookup_insert_ne; [done | congruence].
    + intros Heq. apply Hrefs. rewrite <- Heq. by apply (mapRefs_held _ p).
  - intros l Hl. by rewrite lookup_insert_ne.
  - intros p Hp. by rewrite lookup_insert_ne.
  - done.
Qed.

(** X13. From construction to filtering. On the handler [NewHandler]
    returns, [Enabled] takes the fast path exactly when the filter text has no
    equals sign, and [Handle] drops a record exactly when its level is below
    the level the parsed filter gives its caller, forwarding it to the wrapped
    handler handed to [NewHandler] otherwise. *)
Theorem NewHandler_then_Handle (i : Inner) (opts : list Opt) σ ctx level record :
  let cfg := applyOpts opts initialConfig in
  let filter := filterText (environ σ) cfg in
  let parsed := parseFilter (config_defaultLevel cfg) filter in
  exists h σ',
    NewHandler i opts σ = Some (h, σ')
    /\ Handler_Enabled h ctx level σ'
       = Some (if occurs "=" filter then true else level >=? parsed.1, σ')
    /\ getLevelForRecord frameFunction h record σ'
       = Some (spec_effectiveLevel frameFunction parsed.1 parsed.2 record, σ')
    /\ Handler_Handle frameFunction h ctx record σ'
       = if slog.Record_Level record
            <? spec_effectiveLevel frameFunction parsed.1 parsed.2 record
         then Some (None, σ')
         else match slog.Handle i ctx record (sink σ) with
              | Some (err, s) => Some (err, setSink s σ')
              | None => None
              end.
Proof.
  intros cfg filter parsed. do 2 eexists. split; [apply NewHandler_run|].
  fold cfg filter parsed.
  set (hv := {| inner := i; defaultLevel := parsed.1;
                perPackageLevel := fresh (dom (maps σ) ∪ mapRefs σ) |}).
  set (σ' := setHandlers _ _).
  assert (Hh : handlers σ' !! fresh (dom (handlers σ)) = Some hv)
    by (simpl; by rewrite lookup_insert_eq).
  assert (Hm : readMap σ' (perPackageLevel hv) = parsed.2)
    by (unfold readMap; simpl; by rewrite lookup_insert_eq).
  split; [|split].
  - rewrite (Handler_Enabled_run _ _ _ _ _ Hh), Hm.
    destruct (occurs "=" filter) eqn:Hocc.
    + rewrite bool_decide_eq_false_2; [done|].
      intros Hempty%parseFilter_empty_modules%terms_no_modules. congruence.
    + rewrite bool_decide_eq_true_2; [done|].
      by apply parseFilter_empty_modules, terms_no_modules.
  - by rewrite (getLevelForRecord_run _ _ _ _ _ Hh), Hm.
  - by rewrite (Handler_Handle_run _ _ _ _ _ _ Hh), Hm.
Qed.

Lemma derive_step h hv σ (step : derivation) h1 σ1 :
  handlers σ !! h = Some hv ->
  derive h step σ = Some (h1, σ1) ->
  exists hv1,
    handlers σ1 !! h1 = Some hv1
    /\ defaultLevel hv1 = defaultLevel hv
    /\ perPackageLevel hv1 = perPackageLevel hv
    /\ maps σ1 = maps σ
    /\ environ σ1 = environ σ
    /\ forall p hp, handlers σ !! p = Some hp -> handlers σ1 !! p = Some hp.
Proof.
  intros Hh Hstep. pose proof (fresh_handler σ) as Hfresh.
  assert (Hnew : forall (i' : Inner) (s : Sink),
             newHandler {| inner := i'; defaultLevel := defaultLevel hv;
                           perPackageLevel := perPackageLevel hv |} (setSink s σ)
             = Some (h1, σ1) ->
             exists hv1,
               handlers σ1 !! h1 = Some hv1
               /\ defaultLevel hv1 = defaultLevel hv
               /\ perPackageLevel hv1 = perPackageLevel hv
               /\ maps σ1 = maps σ
               /\ environ σ1 = environ σ
               /\ forall p hp, handlers σ !! p = Some hp -> handlers σ1 !! p = Some hp).
  { intros i' s. unfold newHandler. simpl. intros [= <- <-]. simpl.
    eexists. split; [by rewrite lookup_insert_eq|]. do 4 (split; [done|]).
    intros p hp Hp. rewrite lookup_insert_ne; [done | congruence]. }
  destruct step as [attrs|name]; simpl in Hstep.
  - unfold Handler_WithAttrs in Hstep.
    rewrite bind_run, (loadHandler_run _ _ _ Hh), bind_run in Hstep.
    unfold liftSink at 1 in Hstep.
    destruct (slog.WithAttrs (inner hv) attrs (sink σ)) as [[i' s]|]; [|done].
    by apply (Hnew i' s).
  - unfold Handler_WithGroup in Hstep.
    rewrite bind_run, (loadHandler_run _ _ _ Hh), bind_run in Hstep.
    unfold liftSink at 1 in Hstep.
    destruct (slog.WithGroup (inner hv) name (sink σ)) as [[i' s]|]; [|done].
    by apply (Hnew i' s).
Qed.

Lemma deriveAll_steps (steps : list derivation) :
  forall h hv σ h' σ',
    handlers σ !! h = Some hv ->
    deriveAll h steps σ = Some (h', σ') ->
    exists hv',
      handlers σ' !! h' = Some hv'
      /\ defaultLevel hv' = defaultLevel hv
      /\ perPackageLevel hv' = perPackageLevel hv
      /\ maps σ' = maps σ
      /\ environ σ' = environ σ
      /\ forall p hp, handlers σ !! p = Some hp -> handlers σ' !! p = Some hp.
Proof.
  induction steps as [|step steps IH]; intros h hv σ h' σ' Hh Hrun.
  - injection Hrun as <- <-. eauto 10.
  - cbn [deriveAll] in Hrun. rewrite bind_run in Hrun.
    destruct (derive h step σ) as [[h1 σ1]|] eqn:Hstep; [|done].
    destruct (derive_step _ _ _ _ _ _ Hh Hstep) as (hv1 & Hh1 & Hd1 & Hp1 & Hm1 & He1 & Hk1).
    destruct (IH _ _ _ _ _ Hh1 Hrun) as (hv' & Hh' & Hd' & Hp' & Hm' & He' & Hk').
    exists hv'. split; [done|]. split; [congruence|]. split; [congruence|].
    split; [congruence|]. split; [congruence|]. eauto.
Qed.

(** X14. Along any chain of [WithAttrs] and [WithGroup] calls that returns,
    the handler at the end has the default level and the very map of the
    handler at the start, no map has changed, the handlers that existed are
    as they were, and for every record the last handler resolves the level the
    first one resolves. *)
Theorem deriveAll_keeps_levels h hv σ (steps : list derivation) h' σ' :
  handlers σ !! h = Some hv ->
  deriveAll h steps σ = Some (h', σ') ->
  exists hv',
    handlers σ' !! h' = Some hv'
    /\ defaultLevel hv' = defaultLevel hv
    /\ perPackageLevel hv' = perPackageLevel hv
    /\ maps σ' = maps σ
    /\ handlers σ' !! h = Some hv
    /\ forall record, exists level,
        getLevelForRecord frameFunction h record σ = Some (level, σ)
        /\ getLevelForRecord frameFunction h' record σ' = Some (level, σ').
Proof.
  intros Hh Hrun.
  destruct (deriveAll_steps steps _ _ _ _ _ Hh Hrun)
    as (hv' & Hh' & Hd & Hp & Hm & _ & Hkeep).
  exists hv'. do 4 (split; [done|]). split; [by apply Hkeep|].
  intros record. eexists. split; [by apply getLevelForRecord_run|].
  rewrite (getLevelForRecord_run _ _ _ _ _ Hh'). unfold readMap.
  by rewrite Hd, Hp, Hm.
Qed.

Lemma setSink_sink {S I : Type} (σ : @state S I) : setSink (sink σ) σ = σ.
Proof. by destruct σ. Qed.

(** X15. A handler of this package around another one. A record is handed
    to the innermost handler exactly when its level is at least the level the
    outer handler resolves and at least the level the inner handler resolves;
    otherwise the outer [Handle] returns [nil] and nothing has changed. *)
Theorem Handle_stacked (h : loc) (hv : @Handler loc)
  (σ : @state (@state Sink Inner) loc) ctx record (hv0 : @Handler Inner) :
  handlers σ !! h = Some hv ->
  handlers (sink σ) !! inner hv = Some hv0 ->
  exists outer lower,
    getLevelForRecord frameFunction h record σ = Some (outer, σ)
    /\ getLevelForRecord frameFunction (inner hv) record (sink σ) = Some (lower, sink σ)
    /\ (slog.Record_Level record < Z.max outer lower ->
        @Handler_Handle error context (@state Sink Inner) loc
          (Handler_slogHandler frameFunction) frameFunction h ctx record σ
        = Some (None, σ))
    /\ (Z.max outer lower <= slog.Record_Level record ->
        @Handler_Handle error context (@state Sink Inner) loc
          (Handler_slogHandler frameFunction) frameFunction h ctx record σ
        = match slog.Handle (inner hv0) ctx record (sink (sink σ)) with
          | Some (err, s) => Some (err, setSink (setSink s (sink σ)) σ)
          | None => None
          end).
Proof.
  intros Hh Hh0. do 2 eexists.
  split; [by apply getLevelForRecord_run|].
  split; [by apply getLevelForRecord_run|].
  rewrite (@Handler_Handle_run error context (@state Sink Inner) loc
             (Handler_slogHandler frameFunction) frameFunction _ _ _ ctx record Hh).
  cbn [slog.Handle Handler_slogHandler].
  rewrite (Handler_Handle_run _ _ _ _ _ _ Hh0).
  set (outer := spec_effectiveLevel _ (defaultLevel hv) _ _).
  set (lower := spec_effectiveLevel _ (defaultLevel hv0) _ _).
  split; intros Hlevel.
  - destruct (Z.ltb_spec (slog.Record_Level record) outer); [done|].
    destruct (Z.ltb_spec (slog.Record_Level record) lower); [|lia].
    by rewrite setSink_sink.
  - destruct (Z.ltb_spec (slog.Record_Level record) outer); [lia|].
    destruct (Z.ltb_spec (slog.Record_Level record) lower); [lia|].
    by destruct (slog.Handle (inner hv0) ctx record (sink (sink σ))) as [[err s]|].
Qed.

(** X16. [NewHandler] reads one environment variable, the configured one:
    from two environments that agree on it, it returns the same handler, in
    the same stores of handlers and maps. *)
Theorem NewHandler_reads_one_variable (i : Inner) (opts : list Opt) σ
  (env' : gmap string string) :
  env' !! config_envVarName (applyOpts opts initialConfig)
  = environ σ !! config_envVarName (applyOpts opts initialConfig) ->
  exists h σ1 σ2,
    NewHandler i opts σ = Some (h, σ1)
    /\ NewHandler i opts (setEnviron env' σ) = Some (h, σ2)
    /\ handlers σ1 = handlers σ2
    /\ maps σ1 = maps σ2
    /\ sink σ1 = sink σ2
    /\ environ σ1 = environ σ
    /\ environ σ2 = env'.
Proof.
  intros Henv. rewrite !NewHandler_run.
  assert (Hf : filterText (environ (setEnviron env' σ)) (applyOpts opts initialConfig)
               = filterText (environ σ) (applyOpts opts initialConfig)).
  { unfold filterText. simpl. by rewrite Henv. }
  rewrite Hf. simpl. do 3 eexists. do 2 (split; [reflexivity|]). done.
Qed.

End HandlerMore.

(** ** Defaults and missing handlers *)

Section HandlerEdges.

Context {error context Sink Inner : Type}.
Context `{!slog.Handler error context Sink Inner}.
Variable frameFunction : N -> string.

Implicit Types (h : loc) (σ : @state Sink Inner) (ctx : context)
  (record : slog.Record) (level : slog.Level).

(** X17. Without options, and with [GO_LOG] not set or empty, [NewHandler]
    returns a handler at [LevelInfo] with no overrides, on which [Enabled] is
    the comparison with [LevelInfo]. *)
Theorem NewHandler_defaults (i : Inner) σ ctx level :
  environ σ !! "GO_LOG" = None \/ environ σ !! "GO_LOG" = Some "" ->
  exists h σ' hv,
    NewHandler i [] σ = Some (h, σ')
    /\ handlers σ' !! h = Some hv
    /\ defaultLevel hv = slog.LevelInfo
    /\ readMap σ' (perPackageLevel hv) = ∅
    /\ Handler_Enabled h ctx level σ' = Some (level >=? slog.LevelInfo, σ').
Proof.
  intros Henv. rewrite NewHandler_run.
  assert (Hf : filterText (environ σ) (applyOpts [] initialConfig) = "").
  { unfold filterText. simpl. by destruct Henv as [-> | ->]. }
  rewrite Hf, parseFilter_empty. simpl.
  set (hv := {| inner := i; defaultLevel := slog.LevelInfo;
                perPackageLevel := fresh (dom (maps σ) ∪ mapRefs σ) |}).
  set (σ' := setHandlers _ _).
  assert (Hh : handlers σ' !! fresh (dom (handlers σ)) = Some hv)
    by (simpl; by rewrite lookup_insert_eq).
  assert (Hm : readMap σ' (perPackageLevel hv) = ∅)
    by (unfold readMap; simpl; by rewrite lookup_insert_eq).
  exists (fresh (dom (handlers σ))), σ', hv.
  do 4 (split; [done|]).
  rewrite (Handler_Enabled_run _ _ _ _ _ Hh), Hm.
  by rewrite bool_decide_eq_true_2.
Qed.

(** X18. On a pointer to no handler every method panics, and the wrapped
    handler is not reached. *)
Theorem methods_on_nil_panic h σ ctx level record (attrs : list slog.Attr) (name : string) :
  handlers σ !! h = None ->
  Handler_Enabled h ctx level σ = None
  /\ Handler_Handle frameFunction h ctx record σ = None
  /\ Handler_WithAttrs h attrs σ = None
  /\ Handler_WithGroup h name σ = None.
Proof.
  intros Hh.
  assert (Hload : loadHandler h σ = None) by (unfold loadHandler; by rewrite Hh).
  unfold Handler_Enabled, Handler_Handle, getLevelForRecord,
    Handler_WithAttrs, Handler_WithGroup.
  by rewrite !bind_run, !Hload.
Qed.

End HandlerEdges.

(** ** The further theorems at the tests *)

(** An override keyed by the import path of [testpackage], not by its name,
    does nothing for the records of [testpackage]. *)
Lemma getLevelForRecord_dead_override_witness :
  handlers testDead !! 1%positive = Some testDeadHandler
  /\ occurs "/" "github.com/cbrewster/slog-env/internal/testpackage"
     || occurs "." "github.com/cbrewster/slog-env/internal/testpackage" = true
  /\ getLevelForRecord testFrames 1%positive
       (testRecord slog.LevelDebug "testpackage debug" 2) testDead
     = Some (slog.LevelInfo, testDead).
Proof.
  assert (Hh : handlers testDead !! 1%positive = Some testDeadHandler)
    by (vm_compute; reflexivity).
  assert (Hk : occurs "/" "github.com/cbrewster/slog-env/internal/testpackage"
               || occurs "." "github.com/cbrewster/slog-env/internal/testpackage" = true)
    by (vm_compute; reflexivity).
  split; [exact Hh|]. split; [exact Hk|].
  destruct (getLevelForRecord_dead_override testFrames _ _ _
              (testRecord slog.LevelDebug "testpackage debug" 2) _ Hh Hk)
    as (level & Hlevel & Hdeleted).
  rewrite Hlevel. f_equal. f_equal.
  apply (inj Some).
  change (Some level) with (fst <$> Some (level,
    setMaps (<[perPackageLevel testDeadHandler :=
                 delete "github.com/cbrewster/slog-env/internal/testpackage"
                   (readMap testDead (perPackageLevel testDeadHandler))]>
               (maps testDead)) testDead)).
  rewrite <- Hdeleted. vm_compute. reflexivity.
Defined.

(** After the debug record of [testpackage] has reached the sink, the handler
    of the test and its map are as before. *)
Lemma Handle_keeps_configuration_witness :
  handlers testFiltered !! 1%positive = Some testFilteredHandler
  /\ Handler_Handle testFrames 1%positive tt
       (testRecord slog.LevelDebug "testpackage debug" 2) testFiltered
     = Some (None, setSink {[1%positive := ["testpackage debug"]]} testFiltered)
  /\ handlers (setSink {[1%positive := ["testpackage debug"]]} testFiltered)
     = handlers testFiltered
  /\ maps (setSink {[1%positive := ["testpackage debug"]]} testFiltered)
     = maps testFiltered.
Proof.
  assert (Hh : handlers testFiltered !! 1%positive = Some testFilteredHandler)
    by (vm_compute; reflexivity).
  assert (Hrun : Handler_Handle testFrames 1%positive tt
                   (testRecord slog.LevelDebug "testpackage debug" 2) testFiltered
                 = Some (None, setSink {[1%positive := ["testpackage debug"]]} testFiltered))
    by (vm_compute; reflexivity).
  split; [exact Hh|]. split; [exact Hrun|].
  destruct (Handle_keeps_configuration testFrames _ _ _ _ _ _ _ Hh Hrun)
    as (Hhs & Hms & _).
  split; [exact Hhs | exact Hms].
Defined.

(** With the filter ["warn"], [Enabled] is false at the info level, and an
    info record is dropped. *)
Lemma Enabled_false_drops_witness :
  handlers testPlain !! 1%positive = Some testPlainHandler
  /\ Handler_Enabled 1%positive tt slog.LevelInfo testPlain = Some (false, testPlain)
  /\ Handler_Handle testFrames 1%positive tt (testRecord slog.LevelInfo "info" 1) testPlain
     = Some (None, testPlain).
Proof.
  assert (Hh : handlers testPlain !! 1%positive = Some testPlainHandler)
    by (vm_compute; reflexivity).
  assert (Hen : Handler_Enabled 1%positive tt slog.LevelInfo testPlain
                = Some (false, testPlain))
    by (vm_compute; reflexivity).
  split; [exact Hh|]. split; [exact Hen|].
  exact (Enabled_false_drops testFrames _ _ _ tt _
           (testRecord slog.LevelInfo "info" 1) Hh Hen eq_refl).
Defined.

(** [WithAttrs] then [WithGroup] on the handler of the test: the handler at
    location [3] has the level and the map of the handler at location [1]. *)
Lemma deriveAll_keeps_levels_witness :
  handlers testFiltered !! 1%positive = Some testFilteredHandler
  /\ deriveAll 1%positive [withAttrs [slog.mkAttr "key" "value"]; withGroup "group"]
       testFiltered
     = Some (3%positive,
             setHandlers {[1%positive := testFilteredHandler;
                           2%positive := testFilteredHandler;
                           3%positive := testFilteredHandler]} testFiltered)
  /\ exists hv',
      handlers (setHandlers {[1%positive := testFilteredHandler;
                              2%positive := testFilteredHandler;
                              3%positive := testFilteredHandler]} testFiltered)
        !! 3%positive = Some hv'
      /\ defaultLevel hv' = slog.LevelError
      /\ perPackageLevel hv' = 1%positive.
Proof.
  assert (Hh : handlers testFiltered !! 1%positive = Some testFilteredHandler)
    by (vm_compute; reflexivity).
  assert (Hrun : deriveAll 1%positive
                   [withAttrs [slog.mkAttr "key" "value"]; withGroup "group"] testFiltered
                 = Some (3%positive,
                         setHandlers {[1%positive := testFilteredHandler;
                                       2%positive := testFilteredHandler;
                                       3%positive := testFilteredHandler]} testFiltered))
    by (vm_compute; reflexivity).
  split; [exact Hh|]. split; [exact Hrun|].
  destruct (deriveAll_keeps_levels testFrames _ _ _ _ _ _ Hh Hrun)
    as (hv' & Hh' & Hd & Hp & _).
  exists hv'. split; [exact Hh'|]. split; [exact Hd | exact Hp].
Defined.

(** The handler at [LevelWarn] around the handler of the test, whose level
    for [testpackage] is [LevelDebug]: an info record of [testpackage] is
    dropped, a warn record reaches the sink. *)
Lemma Handle_stacked_witness :
  handlers testStacked !! 1%positive = Some testStackedHandler
  /\ handlers (sink testStacked) !! inner testStackedHandler = Some testFilteredHandler
  /\ @Handler_Handle string unit (@state testSink loc) loc
       (Handler_slogHandler testFrames) testFrames 1%positive tt
       (testRecord slog.LevelInfo "testpackage info" 2) testStacked
     = Some (None, testStacked)
  /\ @Handler_Handle string unit (@state testSink loc) loc
       (Handler_slogHandler testFrames) testFrames 1%positive tt
       (testRecord slog.LevelWarn "testpackage warn" 2) testStacked
     = Some (None,
             setSink (setSink {[1%positive := ["testpackage warn"]]} testFiltered)
               testStacked).
Proof.
  assert (Hh : handlers testStacked !! 1%positive = Some testStackedHandler)
    by (vm_compute; reflexivity).
  assert (Hh0 : handlers (sink testStacked) !! inner testStackedHandler
                = Some testFilteredHandler)
    by (vm_compute; reflexivity).
  split; [exact Hh|]. split; [exact Hh0|].
  assert (Hlevels : forall record outer lower,
             slog.Record_PC record = 2%N ->
             getLevelForRecord testFrames 1%positive record testStacked
             = Some (outer, testStacked) ->
             getLevelForRecord testFrames (inner testStackedHandler) record
               (sink testStacked) = Some (lower, sink testStacked) ->
             Z.max outer lower = slog.LevelWarn).
  { intros [time msg lvl pc] outer lower Hpc Ho Hl. simpl in Hpc. subst pc.
    assert (outer = slog.LevelWarn) as ->.
    { apply (inj Some). change (Some outer) with (fst <$> Some (outer, testStacked)).
      rewrite <- Ho. vm_compute. reflexivity. }
    assert (lower = slog.LevelDebug) as ->.
    { apply (inj Some). change (Some lower) with (fst <$> Some (lower, sink testStacked)).
      rewrite <- Hl. vm_compute. reflexivity. }
    reflexivity. }
  split.
  - destruct (Handle_stacked testFrames _ _ _ tt
                (testRecord slog.LevelInfo "testpackage info" 2) _ Hh Hh0)
      as (outer & lower & Ho & Hl & Hdrop & _).
    apply Hdrop.
    rewrite (Hlevels (testRecord slog.LevelInfo "testpackage info" 2) _ _ eq_refl Ho Hl).
    vm_compute. reflexivity.
  - destruct (Handle_stacked testFrames _ _ _ tt
                (testRecord slog.LevelWarn "testpackage warn" 2) _ Hh Hh0)
      as (outer & lower & Ho & Hl & _ & Hforward).
    rewrite Hforward; [vm_compute; reflexivity|].
    rewrite (Hlevels (testRecord slog.LevelWarn "testpackage warn" 2) _ _ eq_refl Ho Hl).
    vm_compute. discriminate.
Defined.

(** Another variable in the environment changes nothing. *)
Lemma NewHandler_reads_one_variable_witness :
  (<["OTHER" := "error"]> (environ (testStart "debug")) : gmap string string)
    !! config_envVarName (applyOpts [] initialConfig)
  = environ (testStart "debug") !! config_envVarName (applyOpts [] initialConfig)
  /\ exists h σ1 σ2,
      NewHandler 1%positive [] (testStart "debug") = Some (h, σ1)
      /\ NewHandler 1%positive []
           (setEnviron (<["OTHER" := "error"]> (environ (testStart "debug")))
              (testStart "debug"))
         = Some (h, σ2)
      /\ handlers σ1 = handlers σ2
      /\ maps σ1 = maps σ2
      /\ sink σ1 = sink σ2
      /\ environ σ1 = environ (testStart "debug")
      /\ environ σ2 = <["OTHER" := "error"]> (environ (testStart "debug")).
Proof.
  assert (Henv : (<["OTHER" := "error"]> (environ (testStart "debug")) : gmap string string)
                   !! config_envVarName (applyOpts [] initialConfig)
                 = environ (testStart "debug")
                     !! config_envVarName (applyOpts [] initialConfig))
    by (vm_compute; reflexivity).
  split; [exact Henv|].
  exact (NewHandler_reads_one_variable 1%positive [] (testStart "debug") _ Henv).
Defined.

(** The environment of a test that does not set [GO_LOG]. *)
Lemma NewHandler_defaults_witness :
  (environ (setEnviron ∅ (testStart "")) !! "GO_LOG" = None
   \/ environ (setEnviron ∅ (testStart "")) !! "GO_LOG" = Some "")
  /\ exists h σ' hv,
      NewHandler 1%positive [] (setEnviron ∅ (testStart "")) = Some (h, σ')
      /\ handlers σ' !! h = Some hv
      /\ defaultLevel hv = slog.LevelInfo
      /\ readMap σ' (perPackageLevel hv) = ∅
      /\ Handler_Enabled h tt slog.LevelDebug σ'
         = Some (slog.LevelDebug >=? slog.LevelInfo, σ').
Proof.
  assert (Henv : environ (setEnviron ∅ (testStart "")) !! "GO_LOG" = None
                 \/ environ (setEnviron ∅ (testStart "")) !! "GO_LOG" = Some "")
    by (left; vm_compute; reflexivity).
  split; [exact Henv|].
  exact (NewHandler_defaults 1%positive _ tt slog.LevelDebug Henv).
Defined.

(** There is no handler at location [2] in the state of the test. *)
Lemma methods_on_nil_panic_witness :
  handlers testFiltered !! 2%positive = None
  /\ Handler_Enabled 2%positive tt slog.LevelError testFiltered = None
  /\ Handler_Handle testFrames 2%positive tt (testRecord slog.LevelError "error" 1)
       testFiltered = None
  /\ Handler_WithAttrs 2%positive [] testFiltered = None
  /\ Handler_WithGroup 2%positive "group" testFiltered = None.
Proof.
  assert (Hh : handlers testFiltered !! 2%positive = None) by (vm_compute; reflexivity).
  split; [exact Hh|].
  exact (methods_on_nil_panic testFrames _ _ tt slog.LevelError
           (testRecord slog.LevelError "error" 1) [] "group" Hh).
Defined.

(** A second handler made in the state of the test: it is at location [2]
    with its own map at location [2], and the first handler keeps its map. *)
Lemma NewHandler_fresh_witness :
  NewHandler 1%positive [] testFiltered
  = Some (2%positive,
          setHandlers {[1%positive := testFilteredHandler;
                        2%positive := {| inner := 1%positive;
                                         defaultLevel := slog.LevelError;
                                         perPackageLevel := 2%positive |}]}
            (setMaps {[1%positive := {["testpackage" := slog.LevelDebug]};
                       2%positive := {["testpackage" := slog.LevelDebug]}]}
               testFiltered))
  /\ handlers testFiltered !! 2%positive = None
  /\ handlers testFiltered !! 1%positive = Some testFilteredHandler
  /\ perPackageLevel testFilteredHandler <> 2%positive.
Proof.
  assert (Hrun : NewHandler 1%positive [] testFiltered
                 = Some (2%positive,
                         setHandlers {[1%positive := testFilteredHandler;
                                       2%positive := {| inner := 1%positive;
                                                        defaultLevel := slog.LevelError;
                                                        perPackageLevel := 2%positive |}]}
                           (setMaps {[1%positive := {["testpackage" := slog.LevelDebug]};
                                      2%positive := {["testpackage" := slog.LevelDebug]}]}
                              testFiltered)))
    by (vm_compute; reflexivity).
  assert (Hh : handlers testFiltered !! 1%positive = Some testFilteredHandler)
    by (vm_compute; reflexivity).
  split; [exact Hrun|].
  destruct (NewHandler_fresh _ _ _ _ _ Hrun) as (hv & Hnew & Hhv & _ & _ & Hold & _).
  split; [exact Hnew|]. split; [exact Hh|].
  destruct (Hold _ _ Hh) as [_ Hne].
  assert (Hp : perPackageLevel hv = 2%positive).
  { apply (inj Some). change (Some (perPackageLevel hv)) with (perPackageLevel <$> Some hv).
    rewrite <- Hhv. vm_compute. reflexivity. }
  by rewrite Hp in Hne.
Defined.
